(** * anki-mcp-server: the AnkiConnect client and the tool dispatcher

    A shallow embedding of [src/index.ts] (the variant with mock mode and the
    [tag_reviewed_cards] tool): the transport client [AnkiConnectClient.request]
    with its retry loop, the batch hydrator [getCardsInfo], the sampler
    [getRandomCardIds] and the dispatcher installed by [setupToolHandlers];
    also the dispatcher of the earlier single-tool variant and [arraysEqual]
    of [scripts/direct-test.js].

    Asynchronous code is sequential here: every [await] is a bind of the
    monad [M], which threads the world and carries thrown exceptions.

    - Identifiers and counters are integers ([Z]); the [factor] of a card
      is a binary64 number, as the client divides it.
    - The collaborator is a function of the POSTs made so far; the
      [result] of a reply has the shape the call site casts it to.
    - Every POST, every [delay] and every [console.error] is recorded, in
      order, in the trace of the world.
    - Arrays of identifiers handed to the sampler live in a store, so that a
      copy and its original are told apart.
    - [Math.random] is a sequence of binary64 numbers, and the index the
      sampler computes from a draw is rounded as the processor rounds it.
    - [new Date()] is a function of how far the run has got: the date can
      change between two events.
    - A [count] argument is a rational: every finite JS number is one. *)

From Stdlib Require Import ZArith QArith PrimFloat Floats.
From Stdlib Require Uint63.
From stdpp Require Import gmap strings list pretty.
From Equations Require Import Equations.

Local Open Scope Z_scope.
Local Open Scope string_scope.
Local Open Scope list_scope.

(** ** Data *)

(** [params: Record<string, any>]: the keys the client ever writes or reads. *)
Module Params.
Record t := mk {
  query : option string;
  cards : option (list Z);
  notes : option (list Z);
  tags : option string;
}.
Definition empty : t := mk None None None None.
Definition ofQuery (q : string) : t := mk (Some q) None None None.
Definition ofCards (ids : list Z) : t := mk None (Some ids) None None.
Definition ofNotes (ids : list Z) : t := mk None None (Some ids) None.
Definition ofNotesTags (ids : list Z) (tag : string) : t :=
  mk None None (Some ids) (Some tag).
End Params.

(** One entry of a note's [fields] object. *)
Module Field.
Record t := mk { value : string; order : Z }.
End Field.

(** An element of the [cardsInfo] reply, as [getCardsInfo] reads it.
    Identifiers and counters are integers; [factor] is kept as the JS number
    it is, since the client divides it. *)
Module RawCard.
Record t := mk {
  cardId : Z;
  note : Z;
  deckName : string;
  modelName : string;
  interval : Z;
  factor : float;
  reps : Z;
  lapses : Z;
}.
End RawCard.

(** An element of the [notesInfo] reply. *)
Module RawNote.
Record t := mk {
  noteId : Z;
  modelName : string;
  tags : list string;
  fields : gmap string Field.t;
}.
End RawNote.

Module Statistics.
Record t := mk { ease : float; interval : Z; reviews : Z; lapses : Z }.
End Statistics.

(** [interface CardInfo]. *)
Module CardInfo.
Record t := mk {
  id : Z;
  noteId : Z;
  deck : string;
  modelName : string;
  fields : gmap string Field.t;
  tags : list string;
  front : string;
  back : string;
  statistics : Statistics.t;
}.
End CardInfo.

(** [response.data.result], by the shapes the call sites cast it to. *)
Inductive jsresult :=
| RNull
| RStr (s : string)
| RBool (b : bool)
| RIds (ids : list Z)
| RCards (cs : list RawCard.t)
| RNotes (ns : list RawNote.t).

(** Thrown values. [McpError code text] is [new McpError(code, text)] of the
    SDK; [Thrown] is a value that is not an [Error] instance. *)
Inductive exn :=
| Error (message : string)
| AxiosError (code : option string) (message : string)
| McpError (code : Z) (text : string)
| TypeError (message : string)
| Thrown (v : string).

Definition isAxiosError (e : exn) : bool :=
  match e with AxiosError _ _ => true | _ => false end.

(** [error.code], [undefined] on anything but an axios error with a code. *)
Definition code_of (e : exn) : option string :=
  match e with AxiosError code _ => code | _ => None end.

(** [error instanceof Error ? error.message : undefined]. The constructor
    of [McpError] passes [`MCP error ${code}: ${text}`] on as the message. *)
Definition message_of (e : exn) : option string :=
  match e with
  | Error m | AxiosError _ m | TypeError m => Some m
  | McpError code text => Some ("MCP error " ++ pretty code ++ ": " ++ text)%string
  | Thrown _ => None
  end.

(** What one HTTP POST to the collaborator ends in: a body [{result, error}]
    or a rejected promise. *)
Inductive outcome :=
| Response (result : jsresult) (error : option string)
| Rejected (e : exn).

(** [console.error] lines, by call site. *)
Inductive logline :=
| LogRetry (retries : nat)
| LogMockAction (action : string)
| LogMockParams (p : Params.t)
| LogMockAddTag (tag : option string) (notes : list Z)
| LogMockUnknown (action : string)
| LogNoteMissing (note : Z)
| LogCardError (cardId : Z) (e : exn)
| LogGetCardsInfoError (e : exn)
| LogNoCards
| LogNoNoteIds
| LogTagAdded (tag : string) (notes cards : nat)
| LogAddTagsError (e : exn).

(** Observable events, in the order they happen. *)
Inductive event :=
| EPost (action : string) (p : Params.t)
| EDelay (ms : Z)
| ELog (l : logline).

(** ** The world and the monad *)

Record world := World {
  mockMode : bool;
  (** reply of the collaborator to the k-th POST, given its action and params *)
  collaborator : nat -> string -> Params.t -> outcome;
  posts : nat;
  (** k-th value returned by [Math.random()] *)
  Math_random : nat -> float;
  draws : nat;
  (** [new Date()] once k events have happened: getFullYear, getMonth,
      getDate *)
  now : nat -> Z * Z * Z;
  (** array objects, by allocation order *)
  heap : list (list Z);
  trace : list event;
}.

Definition emit (e : event) (w : world) : world :=
  World (mockMode w) (collaborator w) (posts w) (Math_random w) (draws w)
        (now w) (heap w) (trace w ++ [e]).

Definition count_post (w : world) : world :=
  World (mockMode w) (collaborator w) (S (posts w)) (Math_random w) (draws w)
        (now w) (heap w) (trace w).

Definition count_draw (w : world) : world :=
  World (mockMode w) (collaborator w) (posts w) (Math_random w) (S (draws w))
        (now w) (heap w) (trace w).

Definition set_heap (h : list (list Z)) (w : world) : world :=
  World (mockMode w) (collaborator w) (posts w) (Math_random w) (draws w)
        (now w) h (trace w).

(** A computation either throws ([inl]) or returns ([inr]). *)
Definition M (A : Type) : Type := world -> (exn + A) * world.

Definition ret {A} (a : A) : M A := fun w => (inr a, w).

Definition throw {A} (e : exn) : M A := fun w => (inl e, w).

Definition bind {A B} (m : M A) (k : A -> M B) : M B :=
  fun w =>
    match m w with
    | (inr a, w') => k a w'
    | (inl e, w') => (inl e, w')
    end.

(** [try { m } catch (error) { h error }] *)
Definition try_catch {A} (m : M A) (h : exn -> M A) : M A :=
  fun w =>
    match m w with
    | (inr a, w') => (inr a, w')
    | (inl e, w') => h e w'
    end.

Notation "'let*' x ':=' m 'in' k" := (bind m (fun x => k))
  (at level 10, x pattern, m at level 100, k at level 200).

Definition when (b : bool) (m : M unit) : M unit := if b then m else ret tt.

(** [console.error(...)] *)
Definition log (l : logline) : M unit := fun w => (inr tt, emit (ELog l) w).

(** [this.delay(ms)] *)
Definition delay (ms : Z) : M unit := fun w => (inr tt, emit (EDelay ms) w).

(** [this.axiosInstance.post(this.url, {action, version, params})], resolved
    to [response.data]. *)
Definition post (action : string) (p : Params.t) : M (jsresult * option string) :=
  fun w =>
    let w' := count_post (emit (EPost action p) w) in
    match collaborator w (posts w) action p with
    | Response r e => (inr (r, e), w')
    | Rejected e => (inl e, w')
    end.

(** Truthiness of a [string | null]. *)
Definition truthy (s : option string) : bool :=
  match s with
  | None => false
  | Some s => negb (String.eqb s "")
  end.

(** ** Transport client *)

Definition mockCard (cardId : Z) : RawCard.t :=
  RawCard.mk cardId (cardId + 1000000) "Mock Deck" "Mock Model" 10 2500%float 5 2.

Definition mockFields : gmap string Field.t :=
  <["Front" := Field.mk "Mock front content" 0]>
    (<["Back" := Field.mk "Mock back content" 1]> ∅).

Definition mockNote (noteId : Z) : RawNote.t :=
  RawNote.mk noteId "Mock Model" ["leech"; "mock_tag"] mockFields.

Definition getMockResponse (action : string) (p : Params.t) : M jsresult :=
  let* _ := log (LogMockAction action) in
  let* _ := log (LogMockParams p) in
  if String.eqb action "version" then ret (RStr "6")
  else if String.eqb action "findCards" then
    ret (RIds [1234567890; 1234567891; 1234567892])
  else if String.eqb action "cardsInfo" then
    ret (RCards (map mockCard (default [] (Params.cards p))))
  else if String.eqb action "notesInfo" then
    ret (RNotes (map mockNote (default [] (Params.notes p))))
  else if String.eqb action "addTags" then
    match Params.notes p with
    | Some ns => let* _ := log (LogMockAddTag (Params.tags p) ns) in ret (RBool true)
    | None => throw (TypeError "Cannot read properties of undefined (reading 'join')")
    end
  else
    let* _ := log (LogMockUnknown action) in ret RNull.

Definition ECONNREFUSED : string := "ECONNREFUSED".
Definition ECONNRESET : string := "ECONNRESET".

Definition refused_message : string :=
  "Could not connect to Anki. Is Anki running with AnkiConnect installed?".

(** [axiosError.code || axiosError.message] *)
Definition code_or_message (e : exn) : string :=
  match e with
  | AxiosError (Some c) message => if String.eqb c "" then message else c
  | AxiosError None message => message
  | Error message | TypeError message => message
  | McpError code _ => pretty code
  | Thrown v => v
  end.

(** [500 * Math.pow(2, 3 - retries)], for the [retries] the client passes
    (3, 2, 1). *)
Definition backoff (retries : nat) : Z := 500 * 2 ^ (3 - Z.of_nat retries).

(** [request(action, params, retries)]. The recursive call passes
    [retries - 1] under the test [retries > 0]. *)
Fixpoint request_from (retries : nat) (action : string) (p : Params.t) : M jsresult :=
  fun w =>
    if mockMode w then getMockResponse action p w
    else
      try_catch
        (let* response := post action p in
         if truthy (snd response) then
           throw (Error ("AnkiConnect error: " ++ default "" (snd response)))
         else
           let* _ := delay 50 in
           ret (fst response))
        (fun error =>
           if isAxiosError error then
             if bool_decide (code_of error = Some ECONNREFUSED) then
               throw (Error refused_message)
             else
               match bool_decide (code_of error = Some ECONNRESET), retries with
               | true, S retries' =>
                   let* _ := log (LogRetry retries) in
                   let* _ := delay (backoff retries) in
                   request_from retries' action p
               | _, _ =>
                   throw (Error ("Network error: " ++ code_or_message error))
               end
           else throw error) w.

(** [retries = 3] is the default every caller relies on. *)
Definition request (action : string) (p : Params.t) : M jsresult :=
  request_from 3 action p.

Definition findLeechCards : M jsresult :=
  request "findCards" (Params.ofQuery "tag:leech").

Definition isAvailable : M bool :=
  try_catch (let* _ := request "version" Params.empty in ret true)
            (fun _ => ret false).

(** ** Batch hydrator *)

(** [[...new Set(ids)]]: the distinct elements, in order of first occurrence. *)
Definition set_elements (ids : list Z) : list Z :=
  foldl (fun seen x => if bool_decide (x ∈ seen) then seen else seen ++ [x]) [] ids.

(** [new Map()] filled by [notesInfoArray.forEach]: later entries win. *)
Definition notesInfoMap_of (notesInfoArray : list RawNote.t) : gmap Z RawNote.t :=
  foldl (fun m noteInfo => <[RawNote.noteId noteInfo := noteInfo]> m) ∅ notesInfoArray.

Definition BATCH_SIZE : nat := 5.

Definition placeholder : string := "[Basic card information only]".

(** The object pushed onto [result]. *)
Definition combine (cardInfo : RawCard.t) (noteInfo : RawNote.t) : CardInfo.t :=
  CardInfo.mk
    (RawCard.cardId cardInfo)
    (RawCard.note cardInfo)
    (RawCard.deckName cardInfo)
    (RawNote.modelName noteInfo)
    (RawNote.fields noteInfo)
    (RawNote.tags noteInfo)
    placeholder
    placeholder
    (Statistics.mk
       (RawCard.factor cardInfo / 1000)%float
       (RawCard.interval cardInfo)
       (RawCard.reps cardInfo)
       (RawCard.lapses cardInfo)).

(** Body of [for (const cardInfo of batch)], with its [try]/[catch].
    [i] is the outer loop variable; [idx] is [batch.indexOf(cardInfo)]: the
    elements of a parsed (or freshly mapped) array are distinct objects, so
    [indexOf] finds each one at its own position. *)
Definition process_card (notesInfoMap : gmap Z RawNote.t) (i idx : nat)
    (cardInfo : RawCard.t) (result : list CardInfo.t) : M (list CardInfo.t) :=
  try_catch
    (let* _ := when ((0 <? i)%nat || (0 <? idx)%nat) (delay 100) in
     match notesInfoMap !! RawCard.note cardInfo with
     | None =>
         let* _ := log (LogNoteMissing (RawCard.note cardInfo)) in
         ret result
     | Some noteInfo => ret (result ++ [combine cardInfo noteInfo])
     end)
    (fun error =>
       let* _ := log (LogCardError (RawCard.cardId cardInfo) error) in
       ret result).

Fixpoint process_batch (notesInfoMap : gmap Z RawNote.t) (i idx : nat)
    (batch : list RawCard.t) (result : list CardInfo.t) : M (list CardInfo.t) :=
  match batch with
  | [] => ret result
  | cardInfo :: rest =>
      let* result' := process_card notesInfoMap i idx cardInfo result in
      process_batch notesInfoMap i (S idx) rest result'
  end.

(** [array.slice(from, to)] for [0 <= from <= to]. *)
Definition slice {A} (l : list A) (from to : nat) : list A :=
  take (to - from) (drop from l).

(** [for (let i = ...; i < cardsInfo.length; i += BATCH_SIZE)], entered at [i]. *)
Equations? process_batches (notesInfoMap : gmap Z RawNote.t)
    (cardsInfo : list RawCard.t) (i : nat) (result : list CardInfo.t)
    : M (list CardInfo.t) by wf (length cardsInfo - i)%nat lt :=
  process_batches notesInfoMap cardsInfo i result with lt_dec i (length cardsInfo) := {
    | left _ =>
        let* result' :=
          process_batch notesInfoMap i 0
            (slice cardsInfo i (i + BATCH_SIZE)) result in
        let* _ := when (i + BATCH_SIZE <? length cardsInfo)%nat (delay 500) in
        process_batches notesInfoMap cardsInfo (i + BATCH_SIZE) result'
    | right _ => ret result }.
Proof. unfold BATCH_SIZE. lia. Qed.

(** The casts [request<any[]>(...)] of [getCardsInfo]: a reply of another
    shape is outside what the annotation promises and fails at its first use. *)
Definition as_cards (r : jsresult) : M (list RawCard.t) :=
  match r with
  | RCards cs => ret cs
  | _ => throw (TypeError "cardsInfo.map is not a function")
  end.

Definition as_notes (r : jsresult) : M (list RawNote.t) :=
  match r with
  | RNotes ns => ret ns
  | _ => throw (TypeError "notesInfoArray.forEach is not a function")
  end.

Definition getCardsInfo (cardIds : list Z) : M (list CardInfo.t) :=
  if (length cardIds =? 0)%nat then ret []
  else
    try_catch
      (let* r := request "cardsInfo" (Params.ofCards cardIds) in
       let* cardsInfo := as_cards r in
       let noteIds := map RawCard.note cardsInfo in
       let uniqueNoteIds := set_elements noteIds in
       let* r' := request "notesInfo" (Params.ofNotes uniqueNoteIds) in
       let* notesInfoArray := as_notes r' in
       let notesInfoMap := notesInfoMap_of notesInfoArray in
       process_batches notesInfoMap cardsInfo 0 [])
      (fun error =>
         let* _ := log (LogGetCardsInfoError error) in
         throw error).

(** ** Sampler *)

(** Arrays of identifiers are objects in [heap]; a reference is an index. *)
Definition read (a : nat) : M (list Z) :=
  fun w => (inr (default [] (heap w !! a)), w).

(** A fresh array object ([[...xs]], [xs.slice(..)], a parsed reply). *)
Definition alloc (xs : list Z) : M nat :=
  fun w => (inr (length (heap w)), set_heap (heap w ++ [xs]) w).

(** [[a[i], a[j]] = [a[j], a[i]]]: both reads, then the write to [a[i]],
    then the write to [a[j]]. The sampler only calls it with [j <= i < length],
    where both reads hit; elsewhere the model leaves the array as it is. *)
Definition swap (a i j : nat) : M unit :=
  fun w =>
    let s := default [] (heap w !! a) in
    match s !! j, s !! i with
    | Some sj, Some si => (inr tt, set_heap (<[a := <[j := si]> (<[i := sj]> s)]> (heap w)) w)
    | _, _ => (inr tt, w)
    end.

(** [Math.random()] *)
Definition random : M float :=
  fun w => (inr (Math_random w (draws w)), count_draw w).

(** An array index as the JS number it is. *)
Definition number_of_nat (n : nat) : float :=
  of_uint63 (Uint63.of_Z (Z.of_nat n)).

(** [Math.floor] of a binary64 number, read off its sign, mantissa and
    exponent: a shift to the left, or to the right for a negative exponent.
    [Math.floor] keeps NaN and the infinities; they are no array index, and
    0 stands for them here. *)
Definition SFfloor (x : spec_float) : Z :=
  match x with
  | S754_finite s m e => Z.shiftl (cond_Zopp s (Zpos m)) e
  | _ => 0
  end.

(** [Math.floor(r * (i + 1))]: the product is a binary64 product, rounded
    to nearest. *)
Definition random_index (r : float) (i : nat) : nat :=
  Z.to_nat (SFfloor (Prim2SF (r * number_of_nat (i + 1))%float)).

(** [for (let i = ...; i > 0; i--)], entered at [i]. *)
Fixpoint shuffle_from (shuffled : nat) (i : nat) : M unit :=
  match i with
  | O => ret tt
  | S i' =>
      let* r := random in
      let j := random_index r i in
      let* _ := swap shuffled i j in
      shuffle_from shuffled i'
  end.

(** What [slice] makes of a finite number: the fraction is dropped. *)
Definition truncate (q : Q) : Z := Z.quot (Qnum q) (Zpos (Qden q)).

(** [xs.slice(0, count)]: [count] is truncated to an integer; a negative
    one counts from the end. *)
Definition slice_to (xs : list Z) (count : Q) : list Z :=
  let k := truncate count in
  if (k <? 0)%Z then take (Z.to_nat (Z.of_nat (length xs) + k)) xs
  else take (Z.to_nat k) xs.

Definition getRandomCardIds (cardIds : nat) (count : Q) : M nat :=
  let* ids := read cardIds in
  if Qle_bool (inject_Z (Z.of_nat (length ids))) count then ret cardIds
  else
    let* shuffled := alloc ids in
    let* _ := shuffle_from shuffled (length ids - 1) in
    let* s := read shuffled in
    alloc (slice_to s count).

(** ** Tool dispatcher *)

(** A value found under a key of [request.params.arguments]. A number is
    finite, as JSON has no other; it need not be an integer. Array items
    are numbers, as both input schemas declare. *)
Inductive jsarg :=
| ANull
| ABool (b : bool)
| ANum (n : Q)
| AStr (s : string)
| AArr (items : list Z)
| AObj.

(** [request.params.arguments?.key], [None] when the key (or the whole
    object) is missing. *)
Module ToolArgs.
Record t := mk {
  detailed : option jsarg;
  count : option jsarg;
  card_ids : option jsarg;
  custom_tag_prefix : option string;
}.
End ToolArgs.

Definition truthy_arg (v : option jsarg) : bool :=
  match v with
  | None | Some ANull => false
  | Some (ABool b) => b
  | Some (ANum n) => negb (Qeq_bool n 0)
  | Some (AStr s) => negb (String.eqb s "")
  | Some (AArr _) | Some AObj => true
  end.

(** [v === false] *)
Definition is_false (v : option jsarg) : bool :=
  match v with Some (ABool false) => true | _ => false end.

Definition isArray (v : option jsarg) : bool :=
  match v with Some (AArr _) => true | _ => false end.

Definition items_of (v : option jsarg) : list Z :=
  match v with Some (AArr items) => items | _ => [] end.

(** [card.fields] reduced to [key -> field.value]. *)
Module CardView.
Record t := mk {
  id : Z;
  noteId : Z;
  deck : string;
  modelName : string;
  fields : gmap string string;
  tags : list string;
  front : string;
  back : string;
  statistics : Statistics.t;
}.
Definition of_card (card : CardInfo.t) : t :=
  mk (CardInfo.id card) (CardInfo.noteId card) (CardInfo.deck card)
     (CardInfo.modelName card) (Field.value <$> CardInfo.fields card)
     (CardInfo.tags card) (CardInfo.front card) (CardInfo.back card)
     (CardInfo.statistics card).
End CardView.

(** The [text] of the single content item; [JSON.stringify] is kept
    structural. *)
Inductive payload :=
| Text (s : string)
| IdsJson (message : string) (count totalLeechCards : nat) (cardIds : list Z)
| CardsJson (message : string) (count totalLeechCards : nat) (cards : list CardView.t)
| TaggedJson (message : string) (tagged_cards : list Z) (tag_added : string).

Record envelope := Envelope { content : payload; isError : bool }.

Definition as_ids (r : jsresult) : M (list Z) :=
  match r with
  | RIds ids => ret ids
  | _ => throw (TypeError "Cannot read properties of null (reading 'length')")
  end.

Definition truthy_result (r : jsresult) : bool :=
  match r with
  | RNull => false
  | RStr s => negb (String.eqb s "")
  | RBool b => b
  | RIds _ | RCards _ | RNotes _ => true
  end.

Definition default_prefix : string := "見直し".

(** [String(n).padStart(2, '0')] *)
Definition pad2 (n : Z) : string :=
  let s := pretty n in
  if (String.length s <? 2)%nat then ("0" ++ s)%string else s.

(** [new Date()], read when the trace is as long as it is. *)
Definition today (w : world) : Z * Z * Z := now w (length (trace w)).

(** [`${year}${month}${day}`] of [new Date()] *)
Definition date_stamp : M string :=
  fun w =>
    let '(year, month, day) := today w in
    (inr (pretty year ++ pad2 (month + 1) ++ pad2 day)%string, w).

(** A default parameter applies when the argument is [undefined]. *)
Definition generateReviewedTag (customPrefix : option string) : M string :=
  let* stamp := date_stamp in
  ret (default default_prefix customPrefix ++ "_" ++ stamp)%string.

Definition addTagsToCards (cardIds : list Z) (customTagPrefix : option string)
    : M jsresult :=
  if (length cardIds =? 0)%nat then
    let* _ := log LogNoCards in ret (RBool false)
  else
    try_catch
      (let* r := request "cardsInfo" (Params.ofCards cardIds) in
       let* cardsInfo := as_cards r in
       let noteIds := set_elements (map RawCard.note cardsInfo) in
       if (length noteIds =? 0)%nat then
         let* _ := log LogNoNoteIds in ret (RBool false)
       else
         let* reviewedTag := generateReviewedTag customTagPrefix in
         let* result := request "addTags" (Params.ofNotesTags noteIds reviewedTag) in
         let* _ := log (LogTagAdded reviewedTag (length noteIds) (length cardIds)) in
         ret result)
      (fun error =>
         let* _ := log (LogAddTagsError error) in
         throw error).

Definition handleGetLeechCards (args : ToolArgs.t) : M envelope :=
  let detailed := negb (is_false (ToolArgs.detailed args)) in
  let count :=
    match ToolArgs.count args with Some (ANum n) => Some n | _ => None end in
  let* r := findLeechCards in
  let* ids := as_ids r in
  let* allLeechCardIds := alloc ids in
  if (length ids =? 0)%nat then
    ret (Envelope (Text "No leech cards found in Anki.") false)
  else
    let sampled := truthy_arg (ANum <$> count) in
    let* leechCardIds :=
      if sampled then getRandomCardIds allLeechCardIds (default 0%Q count)
      else ret allLeechCardIds in
    let* leech := read leechCardIds in
    let cardCountInfo :=
      (if sampled then
         "Returning " ++ pretty (length leech) ++ " random cards out of "
           ++ pretty (length ids) ++ " total leech cards."
       else "Returning all " ++ pretty (length leech) ++ " leech cards.")%string in
    if negb detailed then
      ret (Envelope (IdsJson cardCountInfo (length leech) (length ids) leech) false)
    else
      let* cardsInfo := getCardsInfo leech in
      ret (Envelope
             (CardsJson cardCountInfo (length cardsInfo) (length ids)
                        (map CardView.of_card cardsInfo))
             false).

Definition no_card_ids_message : string :=
  "Error: No card IDs provided. Please provide an array of card IDs to tag.".

Definition handleTagReviewedCards (args : ToolArgs.t) : M envelope :=
  let cardIds := ToolArgs.card_ids args in
  let customTagPrefix := ToolArgs.custom_tag_prefix args in
  if negb (truthy_arg cardIds) || negb (isArray cardIds)
     || (length (items_of cardIds) =? 0)%nat
  then ret (Envelope (Text no_card_ids_message) true)
  else
    let* success := addTagsToCards (items_of cardIds) customTagPrefix in
    if truthy_result success then
      let* tagDate := date_stamp in
      let tagPrefix :=
        if truthy customTagPrefix then default "" customTagPrefix
        else default_prefix in
      let tag := (tagPrefix ++ "_" ++ tagDate)%string in
      ret (Envelope
             (TaggedJson
                ("Successfully tagged " ++ pretty (length (items_of cardIds))
                   ++ " cards with '" ++ tag ++ "'")
                (items_of cardIds) tag)
             false)
    else
      ret (Envelope
             (Text "Failed to add tags to cards. Please check if the card IDs are valid.")
             true).

Definition unavailable_message : string :=
  "Could not connect to Anki. Please make sure Anki is running and AnkiConnect is installed.".

(** [ErrorCode.MethodNotFound] *)
Definition MethodNotFound : Z := -32601.

(** The handler registered for [CallToolRequestSchema]; [ANKI_MOCK_MODE] is
    the flag the client was built with. *)
Definition callTool (name : string) (args : ToolArgs.t) : M envelope :=
  let* available := isAvailable in
  fun w =>
    if negb available && negb (mockMode w) then
      (inr (Envelope (Text unavailable_message) true), w)
    else
      try_catch
        (if String.eqb name "get_leech_cards" then handleGetLeechCards args
         else if String.eqb name "tag_reviewed_cards" then handleTagReviewedCards args
         else throw (McpError MethodNotFound ("Unknown tool: " ++ name)))
        (fun error =>
           let errorMessage := default "Unknown error occurred" (message_of error) in
           ret (Envelope (Text ("Error: " ++ errorMessage)) true)) w.

(** ** Observations and example worlds *)

(** The waits of a trace, in order. *)
Definition delays (t : list event) : list Z :=
  omap (fun e => match e with EDelay ms => Some ms | _ => None end) t.

(** The actions POSTed to the collaborator, in order. *)
Definition posted (t : list event) : list string :=
  omap (fun e => match e with EPost action _ => Some action | _ => None end) t.

(** The [console.error] lines of a trace, in order. *)
Definition logged (t : list event) : list logline :=
  omap (fun e => match e with ELog l => Some l | _ => None end) t.

(** [w] after [n] more POSTs and the events [evs]. *)
Definition after (w : world) (n : nat) (evs : list event) : world :=
  World (mockMode w) (collaborator w) (n + posts w) (Math_random w) (draws w)
        (now w) (heap w) (trace w ++ evs).

(** The collaborator fails the next [k] POSTs of [action] with ECONNRESET. *)
Definition resets (w : world) (action : string) (p : Params.t) (k : nat) : Prop :=
  forall j, (j < k)%nat ->
    exists m, collaborator w (j + posts w) action p
              = Rejected (AxiosError (Some ECONNRESET) m).

(** What [k] failed attempts leave in the trace: the POST, the retry
    notice, the wait. *)
Definition retry_events (action : string) (p : Params.t) (k : nat) : list event :=
  flat_map (fun j => [EPost action p; ELog (LogRetry (3 - j)); EDelay (500 * 2 ^ Z.of_nat j)])
           (seq 0 k).

(** A collaborator that answers the k-th POST with the k-th outcome of a
    script and times out afterwards. *)
Definition scripted (os : list outcome) : nat -> string -> Params.t -> outcome :=
  fun k _ _ => default (Rejected (AxiosError (Some "ECONNABORTED") "timeout of 30000ms exceeded"))
                       (os !! k).

(** The date of the example worlds: 15 January 2025, all day. *)
Definition mid_january : nat -> Z * Z * Z := fun _ => (2025, 0, 15).

Definition fresh_world (mock : bool) (os : list outcome) (rnd : nat -> float) : world :=
  World mock (scripted os) 0 rnd 0 mid_january [] [].

Definition reset_outcome : outcome :=
  Rejected (AxiosError (Some ECONNRESET) "read ECONNRESET").

(** ** The hydration loop, record by record *)

(** The records the loop pushes for the card-level records [cs]. *)
Definition hydrate (m : gmap Z RawNote.t) (cs : list RawCard.t) : list CardInfo.t :=
  omap (fun c => combine c <$> m !! RawCard.note c) cs.

Definition has_note (m : gmap Z RawNote.t) (c : RawCard.t) : bool :=
  bool_decide (is_Some (m !! RawCard.note c)).

(** The record at position [k] (from 0) of [n] card-level records: the wait
    before it, the notice when its note is missing, the wait after it. *)
Definition wait_before (k : nat) : list Z :=
  if (0 <? k)%nat then [100] else [].

Definition wait_after (n k : nat) : list Z :=
  if ((k + 1) mod 5 =? 0)%nat && (k + 1 <? n)%nat then [500] else [].

Definition missing_notice (m : gmap Z RawNote.t) (c : RawCard.t) : list logline :=
  match m !! RawCard.note c with
  | None => [LogNoteMissing (RawCard.note c)]
  | Some _ => []
  end.

Definition card_events (n : nat) (m : gmap Z RawNote.t) (k : nat) (c : RawCard.t)
    : list event :=
  map EDelay (wait_before k) ++ map ELog (missing_notice m c)
    ++ map EDelay (wait_after n k).

Fixpoint loop_events (n : nat) (m : gmap Z RawNote.t) (k : nat) (cs : list RawCard.t)
    : list event :=
  match cs with
  | [] => []
  | c :: cs' => card_events n m k c ++ loop_events n m (S k) cs'
  end.

(** The waits of a run over [n] records. *)
Definition pacing (n : nat) : list Z :=
  flat_map (fun k => wait_before k ++ wait_after n k) (seq 0 n).

(** The waits as the specification words them: groups of five; 100ms before
    every record of a group but its first; 500ms between consecutive groups. *)
Definition wait_before_in_group (k : nat) : list Z :=
  if (0 <? k mod 5)%nat then [100] else [].

Definition pacing_by_group (n : nat) : list Z :=
  flat_map (fun k => wait_before_in_group k ++ wait_after n k) (seq 0 n).

(** A collaborator that knows three cards and has lost the note of the
    second one. *)
Definition sample_card (cardId note : Z) : RawCard.t :=
  RawCard.mk cardId note "Default" "Basic" 3 2300%float 7 8.

Definition sample_note (noteId : Z) : RawNote.t :=
  RawNote.mk noteId "Basic" ["leech"] ∅.

Definition gap_cards : list RawCard.t :=
  [sample_card 11 101; sample_card 12 102; sample_card 13 103].

Definition gap_notes : list RawNote.t := [sample_note 101; sample_note 103].

Definition gap_world : world :=
  fresh_world false
    [Response (RCards gap_cards) None; Response (RNotes gap_notes) None]
    (fun _ => 0%float).

(** The same world after the first and after the second bulk call. *)
Definition gap_world1 : world :=
  snd (request "cardsInfo" (Params.ofCards [11; 12; 13]) gap_world).

Definition gap_world2 : world :=
  snd (request "notesInfo"
         (Params.ofNotes (set_elements (map RawCard.note gap_cards))) gap_world1).

(** What mock mode hydrates a card identifier into. *)
Definition mockCardInfo (cardId : Z) : CardInfo.t :=
  combine (mockCard cardId) (mockNote (cardId + 1000000)).

(** [w] after [d] more draws from [Math.random] and with the arrays [h]. *)
Definition sampled (w : world) (d : nat) (h : list (list Z)) : world :=
  World (mockMode w) (collaborator w) (posts w) (Math_random w) (d + draws w)
        (now w) h (trace w).

(** The contract of [Math.random]: a number in [0, 1). *)
Definition unit_interval (rnd : nat -> float) : Prop :=
  forall k, (0 <=? rnd k)%float = true /\ (rnd k <? 1)%float = true.

(** The shuffle as the specification words it: for index [i] from the end
    down to 1, swap with a chosen index in [0, i]. [choose i] is the index
    chosen for [i]. *)
Definition exchange (s : list Z) (i j : nat) : list Z :=
  match s !! i, s !! j with
  | Some si, Some sj => <[j := si]> (<[i := sj]> s)
  | _, _ => s
  end.

Fixpoint fisher_yates (choose : nat -> nat) (i : nat) (s : list Z) : list Z :=
  match i with
  | O => s
  | S i' => fisher_yates choose i' (exchange s i (choose i))
  end.

(** The index chosen for [i] in an array of [n] elements when [d] numbers
    were drawn before the shuffle: the loop reaches [i] after [n - 1 - i]
    more draws. *)
Definition choice (rnd : nat -> float) (d n i : nat) : nat :=
  random_index (rnd (d + (n - 1 - i))%nat) i.

Definition shuffled_copy (rnd : nat -> float) (d : nat) (ids : list Z) : list Z :=
  fisher_yates (choice rnd d (length ids)) (length ids - 1) ids.

(** A world holding one array of five identifiers, and a random source
    that alternates between 0.75 and 0.25. *)
Definition alternating (k : nat) : float := if Nat.even k then 0.75%float else 0.25%float.

Definition deck_world : world :=
  World false (scripted []) 0 alternating 0 mid_january [[10; 20; 30; 40; 50]] [].

(** [card_ids] is missing, is not an array, or is an empty array. *)
Definition invalid_card_ids (v : option jsarg) : Prop :=
  v = None \/ isArray v = false \/ v = Some (AArr []).

(** [tag_reviewed_cards({card_ids: []})] *)
Definition empty_card_ids : ToolArgs.t := ToolArgs.mk None None (Some (AArr [])) None.

(** A collaborator that answers the version probe. *)
Definition probe_world : world :=
  fresh_world false [Response (RStr "6") None] (fun _ => 0%float).

(** Whether the version probe fails in a world. *)
Definition probe_fails (w : world) : bool :=
  match fst (request "version" Params.empty w) with
  | inl _ => true
  | inr _ => false
  end.

(** ** The dispatcher of the single-tool variant *)

(** The [CallToolRequestSchema] handler of [src/index.ts] as it was before
    tagging: one tool, no mock mode (it runs on worlds where [mockMode] is
    off), the name checked before anything else and outside the [try]. *)
Definition callTool_leech_only (name : string) (args : ToolArgs.t) : M envelope :=
  if negb (String.eqb name "get_leech_cards") then
    throw (McpError MethodNotFound ("Unknown tool: " ++ name))
  else
    let* available := isAvailable in
    if negb available then ret (Envelope (Text unavailable_message) true)
    else
      try_catch
        (handleGetLeechCards args)
        (fun error =>
           let errorMessage := default "Unknown error occurred" (message_of error) in
           ret (Envelope (Text ("Error retrieving leech cards: " ++ errorMessage)) true)).

(** ** [scripts/direct-test.js] *)

(** [for (let i = ...; i < a.length; i++) if (a[i] !== b[i]) return false],
    entered at [i] with [remaining] rounds to go. *)
Fixpoint arraysEqual_from (a b : list Z) (i remaining : nat) : bool :=
  match remaining with
  | O => true
  | S remaining' =>
      if negb (bool_decide (a !! i = b !! i)) then false
      else arraysEqual_from a b (S i) remaining'
  end.

Definition arraysEqual (a b : list Z) : bool :=
  if negb (length a =? length b)%nat then false
  else arraysEqual_from a b 0 (length a).

(** ** More observations and example worlds *)

(** The time a trace spends waiting, in ms. *)
Definition total_wait (t : list event) : Z := foldr Z.add 0 (delays t).

(** The action names [getMockResponse] knows. *)
Definition mock_actions : list string :=
  ["version"; "findCards"; "cardsInfo"; "notesInfo"; "addTags"].

(** A collaborator that never answers in time. *)
Definition silent_world : world := fresh_world false [] (fun _ => 0%float).

(** A POST that fails with a value that is not an axios error. *)
Definition garbled_world : world :=
  fresh_world false [Rejected (TypeError "Unexpected token < in JSON")] (fun _ => 0%float).

Definition mock_world : world := fresh_world true [] (fun _ => 0%float).

(** A collaborator whose two bulk replies fail: the first at once, the
    second after the cards were delivered. *)
Definition refusing_world : world :=
  fresh_world false
    [Rejected (AxiosError (Some ECONNREFUSED) "connect ECONNREFUSED 127.0.0.1:8765")]
    (fun _ => 0%float).

Definition half_world : world :=
  fresh_world false
    [Response (RCards gap_cards) None;
     Response RNull (Some "collection is not available")]
    (fun _ => 0%float).

Definition half_world1 : world :=
  snd (request "cardsInfo" (Params.ofCards [11; 12; 13]) half_world).

Definition half_world2 : world :=
  snd (request "notesInfo"
         (Params.ofNotes (set_elements (map RawCard.note gap_cards))) half_world1).

(** What [date_stamp] and [generateReviewedTag] return in a world. *)
Definition stamp (w : world) : string :=
  let '(year, month, day) := today w in
  (pretty year ++ pad2 (month + 1) ++ pad2 day)%string.

Definition reviewed_tag (customPrefix : option string) (w : world) : string :=
  (default default_prefix customPrefix ++ "_" ++ stamp w)%string.

(** A collaborator that delivers the cards and answers the tag addition
    with [null]. *)
Definition tagging_world : world :=
  fresh_world false
    [Response (RCards gap_cards) None; Response RNull None]
    (fun _ => 0%float).

Definition tagging_world1 : world :=
  snd (request "cardsInfo" (Params.ofCards [11; 12; 13]) tagging_world).

Definition tagging_world2 : world :=
  snd (request "addTags"
         (Params.ofNotesTags (set_elements (map RawCard.note gap_cards))
                             (reviewed_tag (Some "done") tagging_world1))
         tagging_world1).

(** A collaborator that finds no card behind the identifiers. *)
Definition cardless_world : world :=
  fresh_world false [Response (RCards []) None] (fun _ => 0%float).

Definition cardless_world1 : world :=
  snd (request "cardsInfo" (Params.ofCards [11; 12; 13]) cardless_world).

(** A run that spans midnight: the date changes once three events have
    happened, that is, during the [addTags] call, which the collaborator
    answers with [true]. *)
Definition midnight_world : world :=
  World false
        (scripted [Response (RCards gap_cards) None; Response (RBool true) None]) 0
        (fun _ => 0%float) 0
        (fun k => if (k <? 3)%nat then (2025, 0, 15) else (2025, 0, 16)) [] [].

(** [tag_reviewed_cards({card_ids: [11, 12, 13], custom_tag_prefix: "done"})] *)
Definition tag_three_cards : ToolArgs.t :=
  ToolArgs.mk None None (Some (AArr [11; 12; 13])) (Some "done").

Definition tagging_failed_message : string :=
  "Failed to add tags to cards. Please check if the card IDs are valid.".

(** The envelope of a tagging that went through. *)
Definition tagged_envelope (ids : list Z) (tag : string) : envelope :=
  Envelope
    (TaggedJson
       ("Successfully tagged " ++ pretty (length ids) ++ " cards with '" ++ tag ++ "'")
       ids tag)
    false.

Definition no_leech_message : string := "No leech cards found in Anki.".

(** [get_leech_cards({detailed: false})] and
    [get_leech_cards({detailed: false, count: 2})] *)
Definition ids_only : ToolArgs.t := ToolArgs.mk (Some (ABool false)) None None None.

Definition two_ids_only : ToolArgs.t :=
  ToolArgs.mk (Some (ABool false)) (Some (ANum 2%Q)) None None.

(** [get_leech_cards({detailed: false, count: 2.5})] *)
Definition two_and_a_half_ids_only : ToolArgs.t :=
  ToolArgs.mk (Some (ABool false)) (Some (ANum (5 # 2)%Q)) None None.

(** A collaborator that finds five leech cards, and one that finds none. *)
Definition leech_world : world :=
  World false (scripted [Response (RIds [10; 20; 30; 40; 50]) None]) 0
        alternating 0 mid_january [] [].

Definition leech_world1 : world :=
  snd (request "findCards" (Params.ofQuery "tag:leech") leech_world).

Definition leechless_world : world :=
  fresh_world false [Response (RIds []) None] (fun _ => 0%float).

Definition leechless_world1 : world :=
  snd (request "findCards" (Params.ofQuery "tag:leech") leechless_world).

(** A collaborator that answers the three calls of a detailed listing. *)
Definition listing_world : world :=
  fresh_world false
    [Response (RIds [11; 12; 13]) None;
     Response (RCards gap_cards) None;
     Response (RNotes gap_notes) None]
    (fun _ => 0%float).

(** The arguments ask for all of [total] cards: [count] is not a number,
    is 0, or is at least [total]. *)
Definition all_requested (args : ToolArgs.t) (total : nat) : Prop :=
  forall n, ToolArgs.count args = Some (ANum n) ->
    (n == 0)%Q \/ (inject_Z (Z.of_nat total) <= n)%Q.

(** ** Binary64 rounding, for the bound on [random_index] *)

(** After [k] halvings of [X] a shift record holds the quotient, and its
    round bit is the last bit shifted out. *)
Definition shifted (X k : Z) (mrs : shr_record) : Prop :=
  shr_m mrs = X / 2 ^ k /\ (0 < k -> shr_r mrs = Z.odd (X / 2 ^ (k - 1))).

(** What rounding to nearest can add to the mantissa [M] at exponent [ex],
    in units of [2 ^ ex]: nothing when the mantissa is kept as it is, half
    a unit of the last place kept otherwise. *)
Definition half_ulp (M : positive) (ex : Z) : Z :=
  let k := fexp prec emax (Zpos (digits2_pos M) + ex) - ex in
  if (0 <? k)%Z then 2 ^ (k - 1) else 0.

(** * Properties *)

(** ** Worlds *)

Lemma after_0_nil w : after w 0 [] = w.
Proof. destruct w; unfold after; simpl. by rewrite app_nil_r. Qed.

Lemma after_after w n evs n' evs' :
  after (after w n evs) n' evs' = after w (n + n') (evs ++ evs').
Proof.
  unfold after; simpl. f_equal; [lia | by rewrite app_assoc].
Qed.

Lemma emit_after e w : emit e w = after w 0 [e].
Proof. reflexivity. Qed.

(** ** Traces *)

Lemma delays_app t t' : delays (t ++ t') = delays t ++ delays t'.
Proof. apply omap_app. Qed.

Lemma logged_app t t' : logged (t ++ t') = logged t ++ logged t'.
Proof. apply omap_app. Qed.

Lemma posted_app t t' : posted (t ++ t') = posted t ++ posted t'.
Proof. apply omap_app. Qed.

Lemma delays_map_EDelay l : delays (map EDelay l) = l.
Proof.
  induction l as [|x l IH]; [done|].
  change (delays (map EDelay (x :: l))) with (x :: delays (map EDelay l)).
  by rewrite IH.
Qed.

Lemma delays_map_ELog l : delays (map ELog l) = [].
Proof. induction l as [|x l IH]; simpl; done. Qed.

Lemma logged_map_ELog l : logged (map ELog l) = l.
Proof.
  induction l as [|x l IH]; [done|].
  change (logged (map ELog (x :: l))) with (x :: logged (map ELog l)).
  by rewrite IH.
Qed.

Lemma logged_map_EDelay l : logged (map EDelay l) = [].
Proof. induction l as [|x l IH]; simpl; done. Qed.

Lemma posted_map_ELog l : posted (map ELog l) = [].
Proof. induction l as [|x l IH]; simpl; done. Qed.

Lemma posted_map_EDelay l : posted (map EDelay l) = [].
Proof. induction l as [|x l IH]; simpl; done. Qed.

(** ** Transport client *)

Section transport.
Variables (w : world) (action : string) (p : Params.t).
Hypothesis real : mockMode w = false.

(** One POST that the collaborator answers. *)
Lemma post_response r e :
  collaborator w (posts w) action p = Response r e ->
  post action p w = (inr (r, e), after w 1 [EPost action p]).
Proof. intros H. unfold post. by rewrite H. Qed.

Lemma post_rejected e :
  collaborator w (posts w) action p = Rejected e ->
  post action p w = (inl e, after w 1 [EPost action p]).
Proof. intros H. unfold post. by rewrite H. Qed.

(** A reply without a (truthy) error is returned after the 50ms pause. *)
Lemma request_from_success retries r e :
  collaborator w (posts w) action p = Response r e ->
  truthy e = false ->
  request_from retries action p w
  = (inr r, after w 1 [EPost action p; EDelay 50]).
Proof.
  intros H He. destruct retries; simpl; rewrite real;
    unfold try_catch, bind; rewrite (post_response _ _ H); simpl; rewrite He;
    unfold delay, ret; simpl; by rewrite emit_after, after_after.
Qed.

(** A reset with retries left: the notice, the wait, the next attempt. *)
Lemma request_from_reset retries m :
  collaborator w (posts w) action p = Rejected (AxiosError (Some ECONNRESET) m) ->
  request_from (S retries) action p w
  = request_from retries action p
      (after w 1 [EPost action p; ELog (LogRetry (S retries));
                  EDelay (backoff (S retries))]).
Proof.
  intros H. simpl. rewrite real.
  unfold try_catch at 1. unfold bind at 1. rewrite (post_rejected _ H).
  unfold bind, log, delay. cbn [bool_decide decide_rel]. simpl.
  by rewrite !emit_after, !after_after.
Qed.

(** A reset with no retry left surfaces as a network error naming the code. *)
Lemma request_from_reset_exhausted m :
  collaborator w (posts w) action p = Rejected (AxiosError (Some ECONNRESET) m) ->
  request_from 0 action p w
  = (inl (Error "Network error: ECONNRESET"), after w 1 [EPost action p]).
Proof.
  intros H. simpl. rewrite real.
  unfold try_catch. unfold bind. by rewrite (post_rejected _ H).
Qed.
End transport.

(** Mock mode answers without a POST. *)
Lemma getMockResponse_quiet action p w :
  exists res evs,
    getMockResponse action p w = (res, after w 0 evs) /\ posted evs = [].
Proof.
  unfold getMockResponse, bind, log. cbn [fst snd].
  repeat match goal with
         | |- context [if ?b then _ else _] => destruct b
         end;
    try destruct (Params.notes p); unfold bind, log, ret, throw; cbn [fst snd];
    rewrite ?emit_after, ?after_after; eexists _, _; split; reflexivity || done.
Qed.

Lemma count_post_after w n evs : count_post (after w n evs) = after w (S n) evs.
Proof. reflexivity. Qed.

(** Whatever happens, [request] POSTs its own action only, at most once
    more than it has retries. *)
Lemma request_from_posts action p : forall retries w,
  exists res n evs,
    request_from retries action p w = (res, after w n evs)
    /\ posted evs = replicate n action
    /\ (n <= S retries)%nat.
Proof.
  assert (Hone : forall w retries (res : exn + jsresult) evs,
             posted evs = [action] ->
             exists res' n evs',
               (res, after w 1 evs) = (res', after w n evs')
               /\ posted evs' = replicate n action /\ (n <= S retries)%nat).
  { intros w retries res evs Hevs. exists res, 1%nat, evs.
    split; [done|]. split; [done|lia]. }
  induction retries as [|retries IH]; intros w; cbn [request_from];
    destruct (mockMode w) eqn:Hmock.
  1,3: destruct (getMockResponse_quiet action p w) as (res & evs & -> & Hevs);
       exists res, 0%nat, evs; split; [done|]; split; [done|lia].
  all: unfold try_catch, bind, post;
       destruct (collaborator w (posts w) action p) as [r e|e]; cbn [fst snd].
  all: rewrite emit_after, count_post_after.
  1,3: destruct (truthy e); unfold throw, delay, ret; cbn [fst snd];
       rewrite ?emit_after, ?after_after; by apply Hone.
  all: destruct e as [?|code msg|? ?|?|?]; cbn [isAxiosError code_of];
       unfold throw; try by apply Hone.
  all: destruct (bool_decide (code = Some ECONNREFUSED)); try by apply Hone.
  all: destruct (bool_decide (code = Some ECONNRESET)); try by apply Hone.
  unfold bind, log, delay. cbn [fst snd].
  rewrite !emit_after, !after_after.
  match goal with
  | |- context [request_from retries action p ?w'] =>
      destruct (IH w') as (res & n & evs & -> & Hevs & Hn)
  end.
  rewrite after_after.
  eexists res, (S n), _. split; [reflexivity|]. split; [|lia].
  rewrite posted_app, Hevs. reflexivity.
Qed.

Lemma resets_weaken w action p k k' :
  (k' <= k)%nat -> resets w action p k -> resets w action p k'.
Proof. intros Hle H j Hj. apply H. lia. Qed.

Lemma resets_scripted_4 action p rnd :
  resets (fresh_world false [reset_outcome; reset_outcome; reset_outcome; reset_outcome] rnd)
         action p 4.
Proof.
  intros j Hj. exists "read ECONNRESET".
  do 4 (destruct j as [|j]; [reflexivity|]). lia.
Qed.

(** C1. Outside mock mode, when the collaborator resets the connection on
    the first [k <= 3] attempts, [request] has by then POSTed [k] times,
    waited 500ms, 1000ms, 2000ms before the first, second, third retry, and
    goes on with [3 - k] retries left; when the fourth attempt is reset
    too, no retry is left and the caller gets the error naming ECONNRESET,
    after exactly four POSTs. In no case does [request] POST more than
    four times (three retries). *)
Theorem request_connection_reset_backoff
    (w : world) (action : string) (p : Params.t) (k : nat) :
  mockMode w = false -> (k <= 3)%nat -> resets w action p k ->
  request action p w
  = request_from (3 - k) action p (after w k (retry_events action p k))
  /\ delays (retry_events action p k) = take k [500; 1000; 2000]
  /\ posted (retry_events action p k) = replicate k action
  /\ (k = 3%nat -> resets w action p 4 ->
      request action p w
      = (inl (Error "Network error: ECONNRESET"),
         after w 4 (retry_events action p 3 ++ [EPost action p])))
  /\ (exists res n evs,
        request action p w = (res, after w n evs)
        /\ posted evs = replicate n action /\ (n <= 4)%nat).
Proof.
  intros Hreal Hk Hres.
  cut ((request action p w
        = request_from (3 - k) action p (after w k (retry_events action p k))
        /\ delays (retry_events action p k) = take k [500; 1000; 2000]
        /\ posted (retry_events action p k) = replicate k action
        /\ (k = 3%nat -> resets w action p 4 ->
            request action p w
            = (inl (Error "Network error: ECONNRESET"),
               after w 4 (retry_events action p 3 ++ [EPost action p])))));
    [intros (H1 & H2 & H3 & H4); repeat (split; [assumption|]);
     exact (request_from_posts action p 3 w)|].
  assert (Hstep : forall j retries w',
             (j < k)%nat -> mockMode w' = false ->
             collaborator w' = collaborator w -> posts w' = (j + posts w)%nat ->
             request_from (S retries) action p w'
             = request_from retries action p
                 (after w' 1 [EPost action p; ELog (LogRetry (S retries));
                              EDelay (backoff (S retries))])).
  { intros j retries w' Hj Hm Hc Hp. destruct (Hres j Hj) as [m Hm'].
    apply (request_from_reset w' action p Hm retries m).
    by rewrite Hc, Hp. }
  split; [|split; [|split]].
  - unfold request.
    destruct k as [|[|[|[|k]]]]; [| | | |lia].
    + by rewrite after_0_nil.
    + rewrite (Hstep 0%nat) by (done || lia). reflexivity.
    + rewrite (Hstep 0%nat) by (done || lia).
      rewrite (Hstep 1%nat) by (done || lia).
      rewrite !after_after. reflexivity.
    + rewrite (Hstep 0%nat) by (done || lia).
      rewrite (Hstep 1%nat) by (done || lia).
      rewrite (Hstep 2%nat) by (done || lia).
      rewrite !after_after. reflexivity.
  - destruct k as [|[|[|[|k]]]]; [reflexivity..|lia].
  - destruct k as [|[|[|[|k]]]]; [reflexivity..|lia].
  - intros -> Hall. unfold request.
    rewrite (Hstep 0%nat) by (done || lia).
    rewrite (Hstep 1%nat) by (done || lia).
    rewrite (Hstep 2%nat) by (done || lia).
    destruct (Hall 3%nat ltac:(lia)) as [m Hm].
    erewrite request_from_reset_exhausted; [|exact Hreal|simpl; exact Hm].
    rewrite !after_after. reflexivity.
Qed.

(** Four resets in a row: three retries, then the error. *)
Lemma request_connection_reset_backoff_witness :
  let w := fresh_world false
             [reset_outcome; reset_outcome; reset_outcome; reset_outcome]
             (fun _ => 0%float) in
  fst (request "findCards" (Params.ofQuery "tag:leech") w)
  = inl (Error "Network error: ECONNRESET")
  /\ delays (trace (snd (request "findCards" (Params.ofQuery "tag:leech") w)))
     = [500; 1000; 2000]
  /\ posts (snd (request "findCards" (Params.ofQuery "tag:leech") w)) = 4%nat.
Proof.
  intros w.
  destruct (request_connection_reset_backoff w "findCards"
              (Params.ofQuery "tag:leech") 3 eq_refl (le_n 3)
              (resets_weaken _ _ _ 4 3 (le_S _ _ (le_n 3)) (resets_scripted_4 _ _ _)))
    as (_ & _ & _ & Hexhausted & _).
  rewrite (Hexhausted eq_refl (resets_scripted_4 _ _ _)).
  repeat split.
Defined.

(** Resets on the first and second attempt, success on the third: the
    call succeeds, having waited 500ms and 1000ms (and the 50ms pause). *)
Example request_two_resets_then_success :
  let w := fresh_world false
             [reset_outcome; reset_outcome; Response (RStr "6") None]
             (fun _ => 0%float) in
  fst (request "version" Params.empty w) = inr (RStr "6")
  /\ delays (trace (snd (request "version" Params.empty w))) = [500; 1000; 50].
Proof. split; reflexivity. Qed.

(** C2 (as stated, fails). A reply whose error field is the empty string
    is non-null, yet [request] takes it for a success. *)
Lemma request_empty_error_is_success :
  let w := fresh_world false [Response (RStr "6") (Some "")] (fun _ => 0%float) in
  collaborator w (posts w) "version" Params.empty = Response (RStr "6") (Some "")
  /\ request "version" Params.empty w
     = (inr (RStr "6"), after w 1 [EPost "version" Params.empty; EDelay 50])
  /\ (forall e w', request "version" Params.empty w <> (inl e, w')).
Proof.
  intros w. split; [reflexivity|]. split; [reflexivity|].
  intros e w' H. vm_compute in H. discriminate H.
Qed.

(** C2 (amended). Outside mock mode, a reply whose error field is a
    non-empty string makes [request] throw the error carrying that
    message, whatever retries are left, after this one POST: no
    retry, no wait. *)
Theorem request_remote_error
    (w : world) (action : string) (p : Params.t) (retries : nat)
    (r : jsresult) (e : string) :
  mockMode w = false ->
  collaborator w (posts w) action p = Response r (Some e) ->
  e <> "" ->
  request_from retries action p w
  = (inl (Error ("AnkiConnect error: " ++ e)), after w 1 [EPost action p]).
Proof.
  intros Hreal H He.
  assert (Ht : truthy (Some e) = true).
  { simpl. destruct (String.eqb_spec e ""); [contradiction|reflexivity]. }
  destruct retries; simpl; rewrite Hreal;
    unfold try_catch, bind; rewrite (post_response _ _ _ _ _ H);
    cbn [snd fst]; rewrite Ht; reflexivity.
Qed.

Lemma request_remote_error_witness :
  let w := fresh_world false
             [Response RNull (Some "collection is not available")]
             (fun _ => 0%float) in
  request "findCards" (Params.ofQuery "tag:leech") w
  = (inl (Error "AnkiConnect error: collection is not available"),
     after w 1 [EPost "findCards" (Params.ofQuery "tag:leech")]).
Proof.
  intros w.
  apply (request_remote_error w "findCards" (Params.ofQuery "tag:leech") 3
           RNull "collection is not available" eq_refl eq_refl).
  discriminate.
Defined.

(** C3. Outside mock mode, when the POST is refused (ECONNREFUSED),
    [request] throws the could-not-connect error at once, whatever
    retries are left: one POST, no wait, no second attempt. *)
Theorem request_connection_refused
    (w : world) (action : string) (p : Params.t) (retries : nat) (m : string) :
  mockMode w = false ->
  collaborator w (posts w) action p = Rejected (AxiosError (Some ECONNREFUSED) m) ->
  request_from retries action p w
  = (inl (Error refused_message), after w 1 [EPost action p]).
Proof.
  intros Hreal H.
  destruct retries; simpl; rewrite Hreal;
    unfold try_catch, bind; rewrite (post_rejected _ _ _ _ H); reflexivity.
Qed.

Lemma request_connection_refused_witness :
  let w := fresh_world false
             [Rejected (AxiosError (Some ECONNREFUSED) "connect ECONNREFUSED 127.0.0.1:8765")]
             (fun _ => 0%float) in
  request "version" Params.empty w
  = (inl (Error refused_message), after w 1 [EPost "version" Params.empty])
  /\ delays (trace (after w 1 [EPost "version" Params.empty])) = []
  /\ posted (trace (after w 1 [EPost "version" Params.empty])) = ["version"].
Proof.
  intros w. split; [|split; reflexivity].
  exact (request_connection_refused w "version" Params.empty 3
           "connect ECONNREFUSED 127.0.0.1:8765" eq_refl eq_refl).
Defined.

(** ** Batch hydrator *)

Lemma process_card_run m i idx c result w :
  process_card m i idx c result w
  = (inr (result ++ hydrate m [c]),
     after w 0 (map EDelay (wait_before (i + idx))
                ++ map ELog (missing_notice m c))).
Proof.
  unfold process_card, try_catch, bind, when, hydrate, missing_notice, wait_before.
  replace (0 <? i + idx)%nat with ((0 <? i)%nat || (0 <? idx)%nat)
    by (destruct i, idx; reflexivity).
  simpl.
  destruct ((0 <? i)%nat || (0 <? idx)%nat); simpl;
    destruct (m !! RawCard.note c); simpl;
    unfold log, ret; simpl; rewrite ?emit_after, ?after_after, ?app_nil_r;
    try reflexivity.
  all: by rewrite after_0_nil.
Qed.

Lemma wait_after_0 k : wait_after 0 k = [].
Proof. unfold wait_after. by rewrite andb_false_r. Qed.

Lemma hydrate_app m cs cs' : hydrate m (cs ++ cs') = hydrate m cs ++ hydrate m cs'.
Proof. apply omap_app. Qed.

Lemma loop_events_app n m k cs cs' :
  loop_events n m k (cs ++ cs')
  = loop_events n m k cs ++ loop_events n m (k + length cs) cs'.
Proof.
  revert k. induction cs as [|c cs IH]; intros k; simpl.
  - by rewrite Nat.add_0_r.
  - rewrite IH, <- app_assoc. do 3 f_equal. lia.
Qed.

(** One group: every record in turn, no 500ms wait inside. *)
Lemma process_batch_run m i batch : forall idx result w,
  process_batch m i idx batch result w
  = (inr (result ++ hydrate m batch),
     after w 0 (loop_events 0 m (i + idx) batch)).
Proof.
  induction batch as [|c rest IH]; intros idx result w.
  - simpl. unfold ret. by rewrite app_nil_r, after_0_nil.
  - cbn [process_batch]. unfold bind. rewrite process_card_run, IH, after_after.
    change (c :: rest) with ([c] ++ rest).
    rewrite hydrate_app, loop_events_app, <- !app_assoc.
    cbn [loop_events length]. unfold card_events. rewrite wait_after_0.
    cbn [map]. rewrite !app_nil_r, <- !app_assoc.
    replace (i + S idx)%nat with (i + idx + 1)%nat by lia.
    reflexivity.
Qed.

(** Position in the group of the record after a group boundary. *)
Lemma group_offset i j :
  (i mod 5 = 0)%nat -> (1 <= j <= 5)%nat ->
  ((i + j) mod 5 =? 0)%nat = (j =? 5)%nat.
Proof.
  intros Hi Hj. rewrite <- Nat.Div0.add_mod_idemp_l, Hi. simpl (0 + j)%nat.
  destruct j as [|[|[|[|[|[|j]]]]]]; try reflexivity; lia.
Qed.

(** The 500ms wait of a group is the one after its fifth record, when
    more records follow. *)
Lemma loop_events_group n m i batch : forall idx,
  (i mod 5 = 0)%nat -> batch <> [] -> (idx + length batch <= 5)%nat ->
  loop_events n m (i + idx) batch
  = loop_events 0 m (i + idx) batch
    ++ (if (idx + length batch =? 5)%nat && (i + 5 <? n)%nat
        then [EDelay 500] else []).
Proof.
  induction batch as [|c rest IH]; intros idx Hi Hne Hlen; [done|].
  simpl in Hlen. simpl loop_events. unfold card_events at 1 2.
  rewrite wait_after_0. unfold wait_after.
  replace (i + idx + 1)%nat with (i + (idx + 1))%nat by lia.
  rewrite (group_offset i (idx + 1) Hi) by lia.
  destruct rest as [|c' rest'].
  - simpl. rewrite !app_nil_r.
    destruct (idx + 1 =? 5)%nat eqn:E.
    + apply Nat.eqb_eq in E. replace (i + (idx + 1))%nat with (i + 5)%nat by lia.
      destruct (i + 5 <? n)%nat; simpl; by rewrite <- ?app_assoc, ?app_nil_r.
    + simpl. by rewrite !app_nil_r.
  - replace (idx + 1 =? 5)%nat with false
      by (symmetry; apply Nat.eqb_neq; simpl in Hlen; lia).
    cbn [andb map]. rewrite !app_nil_r.
    replace (S (i + idx)) with (i + S idx)%nat by lia.
    rewrite (IH (S idx) Hi) by (done || simpl in *; lia).
    replace (S idx + length (c' :: rest'))%nat
      with (idx + S (length (c' :: rest')))%nat by lia.
    by rewrite <- !app_assoc.
Qed.

(** The loop from a group boundary [i]: the remaining records in order,
    with the waits of their positions. *)
Lemma process_batches_run m cs : forall d i result w,
  (length cs - i = d)%nat -> (i mod 5 = 0)%nat ->
  process_batches m cs i result w
  = (inr (result ++ hydrate m (drop i cs)),
     after w 0 (loop_events (length cs) m i (drop i cs))).
Proof.
  induction d as [d IH] using lt_wf_ind. intros i result w Hd Hi.
  simp process_batches. destruct (lt_dec i (length cs)) as [Hlt|Hge]; simpl.
  - unfold bind, slice, BATCH_SIZE.
    rewrite process_batch_run.
    replace (i + 5 - i)%nat with 5%nat by lia.
    set (batch := take 5 (drop i cs)).
    assert (Hsplit : drop i cs = batch ++ drop (i + 5) cs).
    { unfold batch. rewrite <- (take_drop 5 (drop i cs)) at 1.
      by rewrite drop_drop. }
    assert (Hlen : length batch = (5 `min` (length cs - i))%nat).
    { unfold batch. by rewrite length_take, length_drop. }
    assert (Hne : batch <> []).
    { intros E. apply (f_equal length) in E. rewrite Hlen in E.
      change (length (@nil RawCard.t)) with 0%nat in E. lia. }
    unfold when.
    rewrite Hsplit, hydrate_app, loop_events_app.
    pose proof (loop_events_group (length cs) m i batch 0 Hi Hne) as Hgroup.
    rewrite !Nat.add_0_r in *. simpl (0 + _)%nat in Hgroup.
    rewrite Hgroup by lia.
    assert (Hnext : ((i + 5) mod 5 = 0)%nat).
    { rewrite <- Nat.Div0.add_mod_idemp_l, Hi. reflexivity. }
    destruct (i + 5 <? length cs)%nat eqn:E.
    + apply Nat.ltb_lt in E.
      replace (length batch =? 5)%nat with true
        by (symmetry; apply Nat.eqb_eq; lia).
      unfold delay. cbn [andb].
      rewrite (IH (length cs - (i + 5))%nat) by (lia || done).
      rewrite emit_after, !after_after, <- !app_assoc.
      replace (i + length batch)%nat with (i + 5)%nat by lia.
      reflexivity.
    + apply Nat.ltb_ge in E. unfold ret.
      rewrite andb_false_r, app_nil_r.
      rewrite (IH (length cs - (i + 5))%nat) by (lia || done).
      rewrite after_after, <- !app_assoc.
      rewrite (drop_ge cs (i + 5)) by lia.
      rewrite !app_nil_r. reflexivity.
  - unfold ret. rewrite drop_ge by lia. simpl.
    by rewrite app_nil_r, after_0_nil.
Qed.

(** A whole hydration, given what the two bulk calls return. *)
Lemma getCardsInfo_run w cardIds cs ns w1 w2 :
  cardIds <> [] ->
  request "cardsInfo" (Params.ofCards cardIds) w = (inr (RCards cs), w1) ->
  request "notesInfo" (Params.ofNotes (set_elements (map RawCard.note cs))) w1
  = (inr (RNotes ns), w2) ->
  getCardsInfo cardIds w
  = (inr (hydrate (notesInfoMap_of ns) cs),
     after w2 0 (loop_events (length cs) (notesInfoMap_of ns) 0 cs)).
Proof.
  intros Hne H1 H2. unfold getCardsInfo.
  destruct cardIds as [|cardId cardIds]; [done|]. cbn [length Nat.eqb].
  unfold try_catch. unfold bind at 1. rewrite H1. cbn [as_cards].
  unfold bind at 1. unfold ret at 1. unfold bind at 1. rewrite H2.
  cbn [as_notes]. unfold bind at 1. unfold ret at 1.
  rewrite (process_batches_run _ cs (length cs) 0) by (reflexivity || lia).
  reflexivity.
Qed.

(** The loop waits by position only. *)
Lemma delays_loop_events n m cs : forall k,
  delays (loop_events n m k cs)
  = flat_map (fun k => wait_before k ++ wait_after n k) (seq k (length cs)).
Proof.
  induction cs as [|c cs IH]; intros k; [done|].
  cbn [loop_events length seq flat_map]. unfold card_events.
  rewrite !delays_app, !delays_map_EDelay, delays_map_ELog, IH.
  by rewrite <- !app_assoc.
Qed.

Lemma has_note_Some m c n : m !! RawCard.note c = Some n -> has_note m c = true.
Proof. intros H. unfold has_note. apply bool_decide_eq_true_2. eauto. Qed.

Lemma has_note_None m c : m !! RawCard.note c = None -> has_note m c = false.
Proof.
  intros H. unfold has_note. apply bool_decide_eq_false_2.
  rewrite H. by intros [? ?].
Qed.

(** The loop logs the missing notes, in the order of their cards. *)
Lemma logged_loop_events n m cs : forall k,
  logged (loop_events n m k cs)
  = map (fun c => LogNoteMissing (RawCard.note c))
        (filter (fun c => has_note m c = false) cs).
Proof.
  induction cs as [|c cs IH]; intros k; [done|].
  cbn [loop_events]. unfold card_events.
  rewrite !logged_app, !logged_map_EDelay, logged_map_ELog, IH, app_nil_r.
  rewrite filter_cons. unfold missing_notice.
  destruct (m !! RawCard.note c) as [n'|] eqn:E.
  - rewrite (has_note_Some _ _ _ E). by rewrite decide_False by done.
  - rewrite (has_note_None _ _ E). by rewrite decide_True by done.
Qed.

(** The loop calls nobody. *)
Lemma posted_loop_events n m cs : forall k, posted (loop_events n m k cs) = [].
Proof.
  induction cs as [|c cs IH]; intros k; [done|].
  cbn [loop_events]. unfold card_events.
  by rewrite !posted_app, !posted_map_EDelay, posted_map_ELog, IH.
Qed.

(** The loop keeps the cards whose note is in the table, in order. *)
Lemma hydrate_kept m cs :
  Forall2 (fun c r => exists n, m !! RawCard.note c = Some n /\ r = combine c n)
          (filter (fun c => has_note m c = true) cs) (hydrate m cs).
Proof.
  induction cs as [|c cs IH]; [constructor|].
  rewrite filter_cons. unfold hydrate. cbn [omap list_omap]. fold (hydrate m cs).
  destruct (m !! RawCard.note c) as [n'|] eqn:E.
  - rewrite (has_note_Some _ _ _ E). rewrite decide_True by done.
    cbn [fmap option_fmap option_map]. constructor; eauto.
  - rewrite (has_note_None _ _ E). rewrite decide_False by done. exact IH.
Qed.

Lemma hydrate_ids m cs :
  map CardInfo.id (hydrate m cs)
  = map RawCard.cardId (filter (fun c => has_note m c = true) cs).
Proof.
  pose proof (hydrate_kept m cs) as H.
  induction H as [|c r cs' rs (n & _ & ->) _ IH]; [done|].
  simpl. by rewrite IH.
Qed.

Lemma hydrate_noteIds m cs :
  map CardInfo.noteId (hydrate m cs)
  = map RawCard.note (filter (fun c => has_note m c = true) cs).
Proof.
  pose proof (hydrate_kept m cs) as H.
  induction H as [|c r cs' rs (n & _ & ->) _ IH]; [done|].
  simpl. by rewrite IH.
Qed.

Section hydration.
Variables (w w1 w2 : world) (cardIds : list Z).
Variables (cs : list RawCard.t) (ns : list RawNote.t).
Hypothesis some_cards : cardIds <> [].
Hypothesis cards_reply :
  request "cardsInfo" (Params.ofCards cardIds) w = (inr (RCards cs), w1).
Hypothesis notes_reply :
  request "notesInfo" (Params.ofNotes (set_elements (map RawCard.note cs))) w1
  = (inr (RNotes ns), w2).

(** C4. When both bulk calls succeed, [getCardsInfo] returns (it does not
    throw): the records it returns are those of the cards whose note is in
    the lookup table, one per such card; every card whose note is missing
    leaves a notice in the log and no record; and nothing more is asked of
    the collaborator. *)
Theorem getCardsInfo_skips_missing_notes :
  exists result w',
    getCardsInfo cardIds w = (inr result, w')
    /\ Forall2 (fun c r => exists n, notesInfoMap_of ns !! RawCard.note c = Some n /\ r = combine c n)
               (filter (fun c => has_note (notesInfoMap_of ns) c = true) cs) result
    /\ logged (trace w')
       = logged (trace w2)
         ++ map (fun c => LogNoteMissing (RawCard.note c))
                (filter (fun c => has_note (notesInfoMap_of ns) c = false) cs)
    /\ posted (trace w') = posted (trace w2)
    /\ posts w' = posts w2.
Proof.
  eexists _, _. split; [exact (getCardsInfo_run _ _ _ _ _ _ some_cards cards_reply notes_reply)|].
  split; [apply hydrate_kept|].
  cbn [trace after posts]. rewrite logged_app, posted_app.
  rewrite logged_loop_events, posted_loop_events, app_nil_r.
  done.
Qed.

(** C5 (amended). When both bulk calls succeed, the waits [getCardsInfo]
    adds after them are, record by record: 100ms before every record but
    the very first of the run, and 500ms after every fifth record that is
    not the last. *)
Theorem getCardsInfo_pacing :
  exists result w',
    getCardsInfo cardIds w = (inr result, w')
    /\ delays (trace w') = delays (trace w2) ++ pacing (length cs).
Proof.
  eexists _, _. split; [exact (getCardsInfo_run _ _ _ _ _ _ some_cards cards_reply notes_reply)|].
  cbn [trace after]. by rewrite delays_app, delays_loop_events.
Qed.

(** C10. [getCardsInfo] returns nothing for no card; otherwise, when both
    bulk calls succeed, it returns the card-level records of the [cardsInfo]
    reply, in their order, each joined with its note, those without a note
    in the table left out: a subsequence of the reply, record for record. *)
Theorem getCardsInfo_preserves_order :
  getCardsInfo [] w = (inr [], w)
  /\ exists w',
       getCardsInfo cardIds w
       = (inr (omap (fun c => combine c <$> notesInfoMap_of ns !! RawCard.note c) cs), w')
       /\ map CardInfo.id (hydrate (notesInfoMap_of ns) cs)
          `sublist_of` map RawCard.cardId cs
       /\ map CardInfo.noteId (hydrate (notesInfoMap_of ns) cs)
          `sublist_of` map RawCard.note cs.
Proof.
  split; [reflexivity|].
  eexists. split; [exact (getCardsInfo_run _ _ _ _ _ _ some_cards cards_reply notes_reply)|].
  split.
  - rewrite hydrate_ids. apply (fmap_sublist RawCard.cardId), sublist_filter.
  - rewrite hydrate_noteIds. apply (fmap_sublist RawCard.note), sublist_filter.
Qed.

End hydration.

Lemma gap_world_cards :
  request "cardsInfo" (Params.ofCards [11; 12; 13]) gap_world
  = (inr (RCards gap_cards), gap_world1).
Proof. reflexivity. Qed.

Lemma gap_world_notes :
  request "notesInfo" (Params.ofNotes (set_elements (map RawCard.note gap_cards)))
          gap_world1
  = (inr (RNotes gap_notes), gap_world2).
Proof. reflexivity. Qed.

Lemma three_cards : [11; 12; 13] <> @nil Z.
Proof. discriminate. Qed.

(** Three cards, the second without its note: two records, one notice. *)
Lemma getCardsInfo_skips_missing_notes_witness :
  exists result w',
    getCardsInfo [11; 12; 13] gap_world = (inr result, w')
    /\ Forall2 (fun c r => exists n, notesInfoMap_of gap_notes !! RawCard.note c = Some n
                                     /\ r = combine c n)
               (filter (fun c => has_note (notesInfoMap_of gap_notes) c = true) gap_cards)
               result
    /\ logged (trace w')
       = logged (trace gap_world2)
         ++ map (fun c => LogNoteMissing (RawCard.note c))
                (filter (fun c => has_note (notesInfoMap_of gap_notes) c = false) gap_cards)
    /\ posted (trace w') = posted (trace gap_world2)
    /\ posts w' = posts gap_world2.
Proof.
  exact (getCardsInfo_skips_missing_notes gap_world gap_world1 gap_world2
           [11; 12; 13] gap_cards gap_notes
           three_cards gap_world_cards gap_world_notes).
Defined.

Example getCardsInfo_gap_world :
  fst (getCardsInfo [11; 12; 13] gap_world)
  = inr [combine (sample_card 11 101) (sample_note 101);
         combine (sample_card 13 103) (sample_note 103)]
  /\ logged (trace (snd (getCardsInfo [11; 12; 13] gap_world))) = [LogNoteMissing 102]
  /\ posted (trace (snd (getCardsInfo [11; 12; 13] gap_world))) = ["cardsInfo"; "notesInfo"].
Proof. repeat split. Qed.

Lemma getCardsInfo_pacing_witness :
  exists result w',
    getCardsInfo [11; 12; 13] gap_world = (inr result, w')
    /\ delays (trace w') = delays (trace gap_world2) ++ pacing (length gap_cards).
Proof.
  exact (getCardsInfo_pacing gap_world gap_world1 gap_world2
           [11; 12; 13] gap_cards gap_notes
           three_cards gap_world_cards gap_world_notes).
Defined.

Lemma getCardsInfo_preserves_order_witness :
  getCardsInfo [] gap_world = (inr [], gap_world)
  /\ exists w',
       getCardsInfo [11; 12; 13] gap_world
       = (inr (omap (fun c => combine c <$> notesInfoMap_of gap_notes !! RawCard.note c)
                    gap_cards), w')
       /\ map CardInfo.id (hydrate (notesInfoMap_of gap_notes) gap_cards)
          `sublist_of` map RawCard.cardId gap_cards
       /\ map CardInfo.noteId (hydrate (notesInfoMap_of gap_notes) gap_cards)
          `sublist_of` map RawCard.note gap_cards.
Proof.
  exact (getCardsInfo_preserves_order gap_world gap_world1 gap_world2
           [11; 12; 13] gap_cards gap_notes
           three_cards gap_world_cards gap_world_notes).
Defined.

(** C5 (as stated, fails). Six cards in mock mode: the first record of
    the second group is preceded by a 100ms wait (after the 500ms one),
    which the wording by groups excludes. *)
Lemma getCardsInfo_waits_before_second_group :
  let w := fresh_world true [] (fun _ => 0%float) in
  delays (trace (snd (getCardsInfo [1; 2; 3; 4; 5; 6] w)))
  = [100; 100; 100; 100; 500; 100]
  /\ pacing_by_group 6 = [100; 100; 100; 100; 500]
  /\ delays (trace (snd (getCardsInfo [1; 2; 3; 4; 5; 6] w))) <> pacing_by_group 6.
Proof.
  intros w. split; [reflexivity|]. split; [reflexivity|].
  vm_compute. discriminate.
Qed.

(** Within one group the two wordings agree. *)
Remark pacing_single_group n : (n <= 5)%nat -> pacing n = pacing_by_group n.
Proof.
  intros H. do 6 (destruct n as [|n]; [reflexivity|]). lia.
Qed.

(** ** Mock mode *)

Lemma request_mock w action p :
  mockMode w = true -> request action p w = getMockResponse action p w.
Proof. intros H. unfold request. simpl. by rewrite H. Qed.

Lemma getMockResponse_cardsInfo w ids :
  getMockResponse "cardsInfo" (Params.ofCards ids) w
  = (inr (RCards (map mockCard ids)),
     after w 0 [ELog (LogMockAction "cardsInfo");
                ELog (LogMockParams (Params.ofCards ids))]).
Proof.
  unfold getMockResponse, bind, log. simpl. unfold ret.
  by rewrite !emit_after, !after_after.
Qed.

Lemma getMockResponse_notesInfo w ids :
  getMockResponse "notesInfo" (Params.ofNotes ids) w
  = (inr (RNotes (map mockNote ids)),
     after w 0 [ELog (LogMockAction "notesInfo");
                ELog (LogMockParams (Params.ofNotes ids))]).
Proof.
  unfold getMockResponse, bind, log. simpl. unfold ret.
  by rewrite !emit_after, !after_after.
Qed.

(** [new Set] keeps every element. *)
Lemma elem_of_set_elements x ids : x ∈ set_elements ids <-> x ∈ ids.
Proof.
  unfold set_elements.
  assert (H : forall seen,
             x ∈ foldl (fun seen y => if bool_decide (y ∈ seen) then seen else seen ++ [y])
                       seen ids
             <-> x ∈ seen \/ x ∈ ids).
  { induction ids as [|y ids IH]; intros seen; simpl.
    - rewrite elem_of_nil. tauto.
    - rewrite IH, elem_of_cons. case_bool_decide as Hy.
      + split; [tauto|]. intros [?|[->|?]]; tauto.
      + rewrite elem_of_app, list_elem_of_singleton. tauto. }
  rewrite H, elem_of_nil. tauto.
Qed.

(** The table built from mock notes knows exactly the notes asked for. *)
Lemma notesInfoMap_of_mock ids x :
  x ∈ ids -> notesInfoMap_of (map mockNote ids) !! x = Some (mockNote x).
Proof.
  unfold notesInfoMap_of.
  assert (H : forall m0 : gmap Z RawNote.t,
             (x ∈ ids \/ m0 !! x = Some (mockNote x)) ->
             foldl (fun m noteInfo => <[RawNote.noteId noteInfo := noteInfo]> m) m0
                   (map mockNote ids) !! x
             = Some (mockNote x)).
  { induction ids as [|y ids IH]; intros m0 Hx; simpl.
    - destruct Hx as [Hx|Hx]; [by apply elem_of_nil in Hx|done].
    - apply IH. destruct Hx as [Hx|Hx].
      + apply elem_of_cons in Hx as [->|Hx]; [right|by left].
        apply lookup_insert_eq.
      + right. destruct (decide (y = x)) as [->|Hne].
        * apply lookup_insert_eq.
        * by rewrite lookup_insert_ne. }
  intros Hx. apply H. by left.
Qed.

Lemma hydrate_mock (m : gmap Z RawNote.t) ids :
  (forall id, id ∈ ids -> m !! (id + 1000000) = Some (mockNote (id + 1000000))) ->
  hydrate m (map mockCard ids) = map mockCardInfo ids.
Proof.
  induction ids as [|id ids IH]; intros H; [done|].
  change (map mockCard (id :: ids)) with ([mockCard id] ++ map mockCard ids).
  rewrite hydrate_app, IH by (intros; apply H; by right).
  unfold hydrate at 1. cbn [omap list_omap RawCard.note mockCard].
  rewrite (H id) by by left. reflexivity.
Qed.

(** In mock mode every requested card is hydrated. *)
Lemma getCardsInfo_mock w cardIds :
  mockMode w = true ->
  exists w', getCardsInfo cardIds w = (inr (map mockCardInfo cardIds), w').
Proof.
  intros Hmock. destruct cardIds as [|cardId cardIds]; [by eexists|].
  eexists.
  erewrite getCardsInfo_run; [| done | |].
  2: { rewrite request_mock by done. apply getMockResponse_cardsInfo. }
  2: { rewrite request_mock by done. apply getMockResponse_notesInfo. }
  rewrite hydrate_mock; [reflexivity|].
  intros id Hid. apply notesInfoMap_of_mock, elem_of_set_elements.
  rewrite map_map. apply list_elem_of_In, in_map_iff.
  exists id. split; [reflexivity|]. by apply list_elem_of_In.
Qed.

(** C6. Every record [getCardsInfo] returns carries as [ease] the
    [factor] of its card-level record divided by 1000 (a division of JS
    numbers); in mock mode, where every card has factor 2500, it returns one
    record per requested card, each with ease 2.5. *)
Theorem getCardsInfo_ease :
  (forall w w1 w2 cardIds cs ns,
      cardIds <> [] ->
      request "cardsInfo" (Params.ofCards cardIds) w = (inr (RCards cs), w1) ->
      request "notesInfo" (Params.ofNotes (set_elements (map RawCard.note cs))) w1
      = (inr (RNotes ns), w2) ->
      exists result w',
        getCardsInfo cardIds w = (inr result, w')
        /\ Forall2 (fun c r =>
                      CardInfo.id r = RawCard.cardId c
                      /\ Statistics.ease (CardInfo.statistics r)
                         = (RawCard.factor c / 1000)%float)
                   (filter (fun c => has_note (notesInfoMap_of ns) c = true) cs)
                   result)
  /\ (forall w cardIds,
        mockMode w = true ->
        exists result w',
          getCardsInfo cardIds w = (inr result, w')
          /\ map CardInfo.id result = cardIds
          /\ Forall (fun r => Statistics.ease (CardInfo.statistics r) = 2.5%float)
                    result).
Proof.
  split.
  - intros w w1 w2 cardIds cs ns Hne H1 H2.
    eexists _, _. split; [exact (getCardsInfo_run _ _ _ _ _ _ Hne H1 H2)|].
    eapply Forall2_impl; [apply hydrate_kept|].
    intros c r (n & _ & ->). split; reflexivity.
  - intros w cardIds Hmock. destruct (getCardsInfo_mock w cardIds Hmock) as [w' Hrun].
    eexists _, _. split; [exact Hrun|]. split.
    + rewrite map_map. apply map_id.
    + apply Forall_forall. intros r Hr.
      apply list_elem_of_In, in_map_iff in Hr as (id & <- & _). reflexivity.
Qed.

Lemma getCardsInfo_ease_witness :
  (exists result w',
      getCardsInfo [11; 12; 13] gap_world = (inr result, w')
      /\ Forall2 (fun c r =>
                    CardInfo.id r = RawCard.cardId c
                    /\ Statistics.ease (CardInfo.statistics r)
                       = (RawCard.factor c / 1000)%float)
                 (filter (fun c => has_note (notesInfoMap_of gap_notes) c = true) gap_cards)
                 result)
  /\ (exists result w',
        getCardsInfo [1234567890; 1234567891; 1234567892]
                     (fresh_world true [] (fun _ => 0%float)) = (inr result, w')
        /\ map CardInfo.id result = [1234567890; 1234567891; 1234567892]
        /\ Forall (fun r => Statistics.ease (CardInfo.statistics r) = 2.5%float)
                  result).
Proof.
  split.
  - exact (proj1 getCardsInfo_ease gap_world gap_world1 gap_world2
             [11; 12; 13] gap_cards gap_notes
             three_cards gap_world_cards gap_world_notes).
  - exact (proj2 getCardsInfo_ease (fresh_world true [] (fun _ => 0%float))
             [1234567890; 1234567891; 1234567892] eq_refl).
Defined.

(** ** Sampler *)

Lemma sampled_0 w : sampled w 0 (heap w) = w.
Proof. by destruct w. Qed.

(** *** Binary64: a draw below one gives an index in range *)

Section binary64.
Local Close Scope string_scope.
Local Close Scope list_scope.

Lemma digits2_pos_bounds p :
  2 ^ (Zpos (digits2_pos p) - 1) <= Zpos p < 2 ^ Zpos (digits2_pos p).
Proof.
  induction p as [p IH|p IH|]; cbn [digits2_pos].
  - rewrite Pos2Z.inj_succ. replace (Z.succ (Z.pos (digits2_pos p)) - 1) with (Z.pos (digits2_pos p)) by lia.
    rewrite Z.pow_succ_r by lia.
    replace (Z.pos (digits2_pos p)) with (Z.succ (Z.pos (digits2_pos p) - 1)) at 1 by lia.
    rewrite Z.pow_succ_r by lia. lia.
  - rewrite Pos2Z.inj_succ. replace (Z.succ (Z.pos (digits2_pos p)) - 1) with (Z.pos (digits2_pos p)) by lia.
    rewrite Z.pow_succ_r by lia.
    replace (Z.pos (digits2_pos p)) with (Z.succ (Z.pos (digits2_pos p) - 1)) at 1 by lia.
    rewrite Z.pow_succ_r by lia. lia.
  - simpl. lia.
Qed.

Lemma shr_1_spec mrs :
  0 <= shr_m mrs ->
  shr_m (shr_1 mrs) = shr_m mrs / 2 /\ shr_r (shr_1 mrs) = Z.odd (shr_m mrs).
Proof.
  destruct mrs as [m r s]. cbn [shr_m]. intros Hm.
  destruct m as [|[p|p|]|p]; try lia; cbn [shr_1 shr_m shr_r Z.odd].
  - split; [|done]. rewrite Z.div_small; lia.
  - split; [|done]. rewrite (Pos2Z.inj_xI p).
    apply (Z.div_unique _ _ _ 1); lia.
  - split; [|done]. rewrite (Pos2Z.inj_xO p).
    apply (Z.div_unique _ _ _ 0); lia.
  - split; [|done]. reflexivity.
Qed.

Lemma shifted_shr_1 X k mrs :
  0 <= X -> 0 <= k -> shifted X k mrs -> shifted X (k + 1) (shr_1 mrs).
Proof.
  intros HX Hk [Hm Hr].
  assert (0 <= shr_m mrs) by (rewrite Hm; apply Z.div_pos; lia).
  destruct (shr_1_spec mrs) as [Hm' Hr']; [done|]. split.
  - rewrite Hm', Hm, Z.pow_add_r, Z.pow_1_r, Z.div_div by lia. reflexivity.
  - intros _. rewrite Hr', Hm. by replace (k + 1 - 1) with k by lia.
Qed.

Lemma shifted_iter_pos X p : 0 <= X ->
  forall k mrs, 0 <= k -> shifted X k mrs ->
  shifted X (k + Zpos p) (SpecFloat.iter_pos shr_1 p mrs).
Proof.
  intros HX. induction p as [p IH|p IH|]; intros k mrs Hk H; cbn [SpecFloat.iter_pos].
  - replace (k + Z.pos p~1) with (((k + 1) + Z.pos p) + Z.pos p) by lia.
    apply IH; [lia|]. apply IH; [lia|]. by apply shifted_shr_1.
  - replace (k + Z.pos p~0) with ((k + Z.pos p) + Z.pos p) by lia.
    apply IH; [lia|]. by apply IH.
  - by apply shifted_shr_1.
Qed.

Lemma shifted_0 X : shifted X 0 {| shr_m := X; shr_r := false; shr_s := false |}.
Proof. split; [by rewrite Z.pow_0_r, Z.div_1_r|lia]. Qed.

(** [shr] of a fresh record: the mantissa is divided, the exponent
    follows, and the round bit says whether at least half a unit was cut. *)
Lemma shr_fresh X e k mrs e' : 0 <= X ->
  shr {| shr_m := X; shr_r := false; shr_s := false |} e k = (mrs, e') ->
  (k <= 0 /\ mrs = {| shr_m := X; shr_r := false; shr_s := false |} /\ e' = e) \/
  (0 < k /\ shifted X k mrs /\ e' = e + k).
Proof.
  intros HX. unfold shr. destruct k as [|p|p]; intros [= <- <-].
  - left. split; [lia|done].
  - right. split; [lia|]. split; [|done].
    apply (shifted_iter_pos X p HX 0); [lia|apply shifted_0].
  - left. split; [lia|done].
Qed.

Lemma round_nearest_even_le m mrs :
  0 <= m ->
  round_nearest_even m (loc_of_shr_record mrs) <= m + (if shr_r mrs then 1 else 0).
Proof.
  intros Hm. destruct mrs as [m' [] []]; cbn; try lia; destruct (Z.even m); lia.
Qed.

Lemma round_nearest_even_nonneg m l : 0 <= m -> 0 <= round_nearest_even m l.
Proof.
  intros Hm. destruct l as [|[]]; cbn; try lia. destruct (Z.even m); lia.
Qed.

Lemma shifted_round_le X k mrs : 0 <= X -> 0 < k -> shifted X k mrs ->
  (shr_m mrs + (if shr_r mrs then 1 else 0)) * 2 ^ k <= X + 2 ^ (k - 1).
Proof.
  intros HX Hk [Hm Hr]. specialize (Hr Hk). rewrite Hm, Hr.
  assert (H2 : 2 ^ k = 2 * 2 ^ (k - 1)).
  { replace k with (Z.succ (k - 1)) at 1 by lia. apply Z.pow_succ_r. lia. }
  assert (Hp : 0 < 2 ^ (k - 1)) by (apply Z.pow_pos_nonneg; lia).
  assert (Hq : X / 2 ^ k = X / 2 ^ (k - 1) / 2) by (rewrite H2, Z.mul_comm, Z.div_div by lia; done).
  pose proof (Z.div_mod X (2 ^ (k - 1)) ltac:(lia)) as HD.
  pose proof (Z.mod_pos_bound X (2 ^ (k - 1)) Hp) as HB.
  set (q := X / 2 ^ (k - 1)) in *.
  pose proof (Zdiv2_odd_eqn q) as Hodd. rewrite Z.div2_div in Hodd.
  rewrite Hq, H2. destruct (Z.odd q); nia.
Qed.

Lemma shr_fexp_le X e mrs e' : 0 <= X ->
  shr_fexp prec emax X e loc_Exact = (mrs, e') ->
  e <= e' /\ 0 <= shr_m mrs /\ shr_m mrs * 2 ^ (e' - e) <= X.
Proof.
  intros HX H. unfold shr_fexp in H. cbn [shr_record_of_loc] in H.
  apply shr_fresh in H; [|done]. destruct H as [(Hk & -> & ->)|(Hk & [Hm _] & ->)].
  - cbn [shr_m]. rewrite Z.sub_diag, Z.pow_0_r. lia.
  - set (k := fexp prec emax (Zdigits2 X + e) - e) in *.
    replace (e + k - e) with k by lia. rewrite Hm.
    assert (0 < 2 ^ k) by (apply Z.pow_pos_nonneg; lia).
    split; [lia|]. split; [apply Z.div_pos; lia|].
    rewrite Z.mul_comm. apply Z.mul_div_le. lia.
Qed.

Lemma binary_round_aux_le s M ex s' m2 e2 :
  binary_round_aux prec emax s (Zpos M) ex loc_Exact = S754_finite s' m2 e2 ->
  s' = s /\ ex <= e2 /\ Zpos m2 * 2 ^ (e2 - ex) <= Zpos M + half_ulp M ex.
Proof.
  unfold binary_round_aux, half_ulp.
  destruct (shr_fexp prec emax (Z.pos M) ex loc_Exact) as [mrs1 e1] eqn:H1.
  destruct (shr_fexp prec emax (round_nearest_even (shr_m mrs1) (loc_of_shr_record mrs1)) e1 loc_Exact)
    as [mrs2 e3] eqn:H2.
  unfold shr_fexp in H1. cbn [shr_record_of_loc Zdigits2] in H1.
  set (k := fexp prec emax (Zpos (digits2_pos M) + ex) - ex) in *.
  apply shr_fresh in H1; [|lia]. clearbody k.
  assert (Hm1 : 0 <= shr_m mrs1).
  { destruct H1 as [(_ & -> & _)|(Hk & [Hm _] & _)]; [cbn; lia|].
    rewrite Hm. apply Z.div_pos; [lia|]. apply Z.pow_pos_nonneg; lia. }
  pose proof (round_nearest_even_le (shr_m mrs1) mrs1 Hm1) as Hle.
  pose proof (round_nearest_even_nonneg (shr_m mrs1) (loc_of_shr_record mrs1) Hm1) as Hnn.
  apply shr_fexp_le in H2; [|done]. destruct H2 as (He & Hm2 & Hval).
  destruct (shr_m mrs2) as [|m|m] eqn:Em; [done| |done].
  destruct (e3 <=? emax - prec); [|done]. intros [= <- <- <-]. split; [done|].
  destruct H1 as [(Hk & -> & ->)|(Hk & Hsh & ->)].
  - cbn [shr_m shr_r loc_of_shr_record round_nearest_even] in *.
    replace (0 <? k)%Z with false by (symmetry; apply Z.ltb_ge; lia). split; [done|].
    by rewrite Z.add_0_r.
  - replace (0 <? k)%Z with true by (symmetry; apply Z.ltb_lt; lia). split; [clear -He Hk; lia|].
    pose proof (shifted_round_le _ _ _ (Pos2Z.is_nonneg M) Hk Hsh) as Hr.
    replace (e3 - ex) with ((e3 - (ex + k)) + k) by lia.
    rewrite Z.pow_add_r by lia.
    assert (0 < 2 ^ k) by (apply Z.pow_pos_nonneg; lia).
    assert (0 <= 2 ^ (e3 - (ex + k))) by (apply Z.pow_nonneg; lia).
    nia.
Qed.

Lemma pos_iter_xO p d : Zpos (Pos.iter xO p d) = Zpos p * 2 ^ Zpos d.
Proof.
  induction d as [|d IH] using Pos.peano_ind.
  - simpl. lia.
  - rewrite Pos.iter_succ, Pos2Z.inj_xO, IH, Pos2Z.inj_succ, Z.pow_succ_r by lia. lia.
Qed.

Lemma digits2_pos_iter_xO p d :
  Zpos (digits2_pos (Pos.iter xO p d)) = Zpos (digits2_pos p) + Zpos d.
Proof.
  induction d as [|d IH] using Pos.peano_ind.
  - simpl. lia.
  - rewrite Pos.iter_succ. cbn [digits2_pos]. rewrite !Pos2Z.inj_succ, IH. lia.
Qed.

(** A mantissa of full width within the exponent range is already rounded. *)
Lemma binary_round_aux_normal s m e :
  Zpos (digits2_pos m) = prec -> SpecFloat.emin prec emax <= e <= emax - prec ->
  binary_round_aux prec emax s (Zpos m) e loc_Exact = S754_finite s m e.
Proof.
  intros Hd He. unfold binary_round_aux, shr_fexp. cbn [shr_record_of_loc Zdigits2].
  assert (Hk : fexp prec emax (Zpos (digits2_pos m) + e) - e = 0).
  { rewrite Hd. unfold fexp. lia. }
  rewrite Hk. cbn [shr shr_m loc_of_shr_record round_nearest_even Zdigits2 shr_record_of_loc].
  rewrite Hk. cbn [shr shr_m].
  replace (e <=? emax - prec) with true by (symmetry; apply Z.leb_le; lia). reflexivity.
Qed.

(** An integer below [2^53] is a binary64 number: its conversion is exact. *)
Lemma number_of_nat_exact n : (0 < n)%nat -> Z.of_nat n < 2 ^ 53 ->
  exists m d, Prim2SF (number_of_nat n) = S754_finite false m (- d) /\
    0 <= d /\ Zpos m = Z.of_nat n * 2 ^ d.
Proof.
  intros Hpos Hlt. unfold number_of_nat. rewrite of_uint63_spec, Uint63.of_Z_spec.
  rewrite Z.mod_small by (change Uint63.wB with (2 ^ 63); split; [lia|];
    apply Z.lt_trans with (2 ^ 53); [done|reflexivity]).
  destruct (Z.of_nat n) as [|p|p] eqn:En; [lia| |lia]. clear En Hpos n.
  cbn [binary_normalize]. unfold binary_round.
  pose proof (digits2_pos_bounds p) as [Hlo Hhi].
  assert (HD : Zpos (digits2_pos p) <= 53).
  { assert (Zpos (digits2_pos p) - 1 < 53); [|lia].
    apply (Z.pow_lt_mono_r_iff 2); lia. }
  rewrite Z.add_0_r.
  replace (fexp prec emax (Zpos (digits2_pos p))) with (Zpos (digits2_pos p) - 53)
    by (unfold fexp; change prec with 53; change (SpecFloat.emin 53 emax) with (-1074); lia).
  unfold shl_align. rewrite Z.sub_0_r.
  destruct (Zpos (digits2_pos p) - 53) as [|d|d] eqn:Ed; [|lia|].
  - rewrite binary_round_aux_normal;
      [|change prec with 53; lia|change (SpecFloat.emin prec emax) with (-1074); change (emax - prec) with 971; lia].
    exists p, 0. split; [done|]. rewrite Z.pow_0_r. lia.
  - rewrite binary_round_aux_normal.
    + exists (Pos.iter xO p d), (Zpos d). split; [done|]. split; [lia|]. apply pos_iter_xO.
    + rewrite digits2_pos_iter_xO. change prec with 53. lia.
    + change (SpecFloat.emin prec emax) with (-1074); change (emax - prec) with 971. lia.
Qed.

(** The heart of the bound: a factor below one times an integer, rounded
    to nearest, stays below the integer. Everything is scaled by
    [2 ^ (d - e)] to stay within the integers. *)
Lemma below_one_product (m mz : positive) (e d n : Z) :
  e <= -52 -> (e = -52 -> Zpos m < 2 ^ 52) -> Zpos m < 2 ^ 53 ->
  0 <= d -> 0 < n -> Zpos mz = n * 2 ^ d ->
  Zpos (m * mz) + half_ulp (m * mz) (e + - d) < n * 2 ^ (d - e).
Proof.
  intros He He52 Hm Hd Hn Hmz.
  set (P := 2 ^ (- e)).
  assert (HP : 0 < P) by (apply Z.pow_pos_nonneg; lia).
  assert (HnP : n * 2 ^ (d - e) = Zpos mz * P).
  { replace (d - e) with (d + - e) by lia. rewrite Z.pow_add_r by lia. fold P. lia. }
  assert (HI : Zpos m * 2 ^ 53 <= (2 ^ 53 - 1) * P).
  { destruct (Z.eq_dec e (-52)) as [->|Hne].
    - specialize (He52 eq_refl). unfold P. change (- -52) with 52.
      change (2 ^ 52) with 4503599627370496 in *.
      change (2 ^ 53) with 9007199254740992 in *. lia.
    - assert (2 ^ 53 <= P) by (apply Z.pow_le_mono_r; lia).
      change (2 ^ 53) with 9007199254740992 in *. nia. }
  assert (HmP : Zpos m < P).
  { change (2 ^ 53) with 9007199254740992 in *. lia. }
  rewrite HnP, Pos2Z.inj_mul.
  assert (Hhalf : 2 ^ 53 * half_ulp (m * mz) (e + - d) < Zpos mz * P).
  { unfold half_ulp.
    set (D := Zpos (digits2_pos (m * mz))).
    pose proof (digits2_pos_bounds (m * mz)) as [Hlo _]. fold D in Hlo.
    rewrite Pos2Z.inj_mul in Hlo.
    set (k := fexp prec emax (D + (e + - d)) - (e + - d)).
    destruct (Z.ltb_spec 0 k) as [Hk|Hk]; [|nia].
    unfold fexp in k. change prec with 53 in k.
    change (SpecFloat.emin 53 emax) with (-1074) in k.
    rewrite <- Z.pow_add_r by lia.
    destruct (Z.max_spec (D + (e + - d) - 53) (-1074)) as [[Hlt Hmax]|[Hge Hmax]];
      unfold k; rewrite Hmax.
    - apply Z.lt_le_trans with (2 ^ (d - e)).
      + apply Z.pow_lt_mono_r; lia.
      + rewrite <- HnP.
        assert (0 < 2 ^ (d - e)) by (apply Z.pow_pos_nonneg; lia). nia.
    - replace (53 + (D + (e + - d) - 53 - (e + - d) - 1)) with (D - 1) by lia.
      nia. }
  change (2 ^ 53) with 9007199254740992 in *. nia.
Qed.

Lemma SFfloor_lt (m : positive) (e ex n : Z) :
  ex <= e -> ex <= 0 -> Zpos m * 2 ^ (e - ex) < n * 2 ^ (- ex) ->
  SFfloor (S754_finite false m e) < n.
Proof.
  intros Hle Hex H. cbn [SFfloor cond_Zopp].
  destruct (Z.le_gt_cases 0 e) as [He|He].
  - rewrite Z.shiftl_mul_pow2 by done.
    replace (e - ex) with (e + - ex) in H by lia. rewrite Z.pow_add_r in H by lia.
    assert (0 < 2 ^ (- ex)) by (apply Z.pow_pos_nonneg; lia). nia.
  - rewrite Z.shiftl_div_pow2 by lia.
    assert (0 < 2 ^ (- e)) by (apply Z.pow_pos_nonneg; lia).
    apply Z.div_lt_upper_bound; [done|].
    replace (- ex) with (- e + (e - ex)) in H by lia. rewrite Z.pow_add_r in H by lia.
    assert (0 < 2 ^ (e - ex)) by (apply Z.pow_pos_nonneg; lia). nia.
Qed.

(** Two positive numbers compare by exponent, then by mantissa. *)
Lemma SFltb_finite (m m' : positive) (e e' : Z) :
  SFltb (S754_finite false m e) (S754_finite false m' e') = true ->
  e < e' \/ (e = e' /\ Zpos m < Zpos m').
Proof.
  unfold SFltb, SFcompare.
  destruct (Z.compare_spec e e') as [->| |]; [|by left|discriminate].
  fold (Pos.compare m m').
  destruct (Pos.compare_spec m m'); try discriminate. intros _. right. split; [done|lia].
Qed.

(** A draw in [[0, 1)] times [i + 1], rounded as the processor does and
    floored, is an index in [[0, i]]. *)
Lemma random_index_le (r : float) (i : nat) :
  (0 <=? r)%float = true -> (r <? 1)%float = true -> (Z.of_nat i + 1 < 2 ^ 53)%Z ->
  (random_index r i <= i)%nat.
Proof.
  intros H0 H1 Hi. unfold random_index. rewrite FloatAxioms.mul_spec.
  rewrite FloatAxioms.leb_spec in H0. rewrite FloatAxioms.ltb_spec in H1.
  pose proof (Prim2SF_valid r) as Hv.
  destruct (number_of_nat_exact (i + 1)) as (mz & d & -> & Hd & Hmz); [lia|lia|].
  change (Prim2SF 0%float) with (S754_zero false) in H0.
  change (Prim2SF 1%float) with (S754_finite false 4503599627370496 (-52)) in H1.
  destruct (Prim2SF r) as [s|s| |s m e].
  - unfold SF64mul, SFmul. cbn [SFfloor Z.to_nat]. lia.
  - destruct s; [vm_compute in H0|vm_compute in H1]; discriminate.
  - vm_compute in H1. discriminate.
  - destruct s; [discriminate H0|]. clear H0.
    apply SFltb_finite in H1.
    unfold valid_binary, bounded, canonical_mantissa in Hv.
    apply andb_prop in Hv as [Hv _]. apply Z.eqb_eq in Hv.
    unfold fexp in Hv. change prec with 53%Z in Hv.
    pose proof (digits2_pos_bounds m) as [_ Hhi].
    assert (Hm : (Zpos m < 2 ^ 53)%Z).
    { eapply Z.lt_le_trans; [exact Hhi|]. apply Z.pow_le_mono_r; lia. }
    assert (He : (e <= -52)%Z /\ (e = -52 -> Zpos m < 2 ^ 52)%Z).
    { change (2 ^ 52)%Z with 4503599627370496%Z. clear -H1. lia. }
    destruct He as [He He52]. unfold SF64mul, SFmul. cbn [xorb].
    destruct (binary_round_aux prec emax false (Zpos (m * mz)) (e + - d) loc_Exact)
      as [s'|s'| |s' m2 e2] eqn:Hround; cbn [SFfloor]; try lia.
    apply binary_round_aux_le in Hround as (-> & Hex & Hval).
    pose proof (below_one_product m mz e d (Z.of_nat (i + 1)) He He52 Hm Hd ltac:(lia) Hmz) as Hb.
    assert (SFfloor (S754_finite false m2 e2) < Z.of_nat (i + 1))%Z; [|cbn [SFfloor] in *; lia].
    apply (SFfloor_lt m2 e2 (e + - d)); [done|lia|].
    replace (- (e + - d))%Z with (d - e)%Z by lia. lia.
Qed.

End binary64.

(** *** The shuffle *)

(** Exchanging two elements of an array permutes it. *)
Lemma swap_Permutation (s : list Z) i j si sj :
  s !! i = Some si -> s !! j = Some sj ->
  <[j := si]> (<[i := sj]> s) ≡ₚ s.
Proof.
  intros Hi Hj.
  pose proof (lookup_lt_Some _ _ _ Hi) as Hli.
  pose proof (lookup_lt_Some _ _ _ Hj) as Hlj.
  apply Permutation_inj. split; [by rewrite !length_insert|].
  exists (fun x => if decide (x = j) then i else if decide (x = i) then j else x).
  split.
  - intros x y. repeat case_decide; intros; subst; congruence.
  - intros x. repeat case_decide; subst.
    + rewrite list_lookup_insert_eq by (by rewrite length_insert). done.
    + rewrite list_lookup_insert_ne by done.
      rewrite list_lookup_insert_eq by done. done.
    + by rewrite !list_lookup_insert_ne by done.
Qed.

Lemma exchange_Permutation (s : list Z) i j : exchange s i j ≡ₚ s.
Proof.
  unfold exchange. destruct (s !! i) as [si|] eqn:Hi; [|done].
  destruct (s !! j) as [sj|] eqn:Hj; [|done]. by apply swap_Permutation.
Qed.

Lemma fisher_yates_Permutation choose : forall i s, fisher_yates choose i s ≡ₚ s.
Proof.
  induction i as [|i IH]; intros s; [done|].
  cbn [fisher_yates]. rewrite IH. apply exchange_Permutation.
Qed.

(** The shuffle asks for the indices chosen for [1 .. i] only. *)
Lemma fisher_yates_ext f g : forall i s,
  (forall k, (0 < k <= i)%nat -> f k = g k) ->
  fisher_yates f i s = fisher_yates g i s.
Proof.
  induction i as [|i IH]; intros s Hfg; [done|].
  cbn [fisher_yates]. rewrite (Hfg (S i)) by lia. apply IH. intros k Hk. apply Hfg. lia.
Qed.

(** The destructuring assignment of the loop body is the exchange. *)
Lemma swap_run w a s i j :
  heap w !! a = Some s ->
  swap a i j w = (inr tt, set_heap (<[a := exchange s i j]> (heap w)) w).
Proof.
  intros Ha. unfold swap, exchange. rewrite Ha. cbn [default from_option id].
  destruct (s !! j) as [sj|] eqn:Hj, (s !! i) as [si|] eqn:Hi; try done;
    rewrite list_insert_id by done; by destruct w.
Qed.

(** The shuffle loop from [i] down: [i] draws, and the array becomes what
    the shuffle of the specification makes of it; no other array changes. *)
Lemma shuffle_from_run a : forall i w s,
  heap w !! a = Some s ->
  shuffle_from a i w
  = (inr tt,
     sampled w i
       (<[a := fisher_yates (choice (Math_random w) (draws w) (S i)) i s]> (heap w))).
Proof.
  induction i as [|i IH]; intros w s Ha.
  - simpl. unfold ret. by rewrite list_insert_id, sampled_0.
  - cbn [shuffle_from]. unfold bind at 1. unfold random at 1.
    unfold bind at 1.
    rewrite (swap_run (count_draw w) a s (S i) _) by done.
    set (j := random_index (Math_random w (draws w)) (S i)).
    set (s1 := exchange s (S i) j).
    set (w1 := set_heap _ _).
    rewrite (IH w1 s1).
    2: { unfold w1. simpl. apply list_lookup_insert_eq. by eapply lookup_lt_Some. }
    assert (Hj : choice (Math_random w) (draws w) (S (S i)) (S i) = j).
    { unfold choice, j. do 2 f_equal. lia. }
    cbn [fisher_yates]. rewrite Hj. fold s1.
    rewrite (fisher_yates_ext (choice (Math_random w1) (draws w1) (S i))
                              (choice (Math_random w) (draws w) (S (S i))) i s1).
    2: { intros k Hk. unfold choice, w1. simpl. do 2 f_equal. lia. }
    unfold w1, sampled. simpl.
    rewrite list_insert_insert_eq. do 2 f_equal. lia.
Qed.

Lemma shuffled_copy_Permutation rnd d ids : shuffled_copy rnd d ids ≡ₚ ids.
Proof. apply fisher_yates_Permutation. Qed.

(** Every index the loop computes lies in [[0, i]]. *)
Lemma choice_le rnd d n i :
  unit_interval rnd -> (Z.of_nat n < 2 ^ 53)%Z -> (i < n)%nat ->
  (choice rnd d n i <= i)%nat.
Proof.
  intros Hrnd Hn Hi. unfold choice.
  destruct (Hrnd (d + (n - 1 - i))%nat) as [H0 H1]. apply random_index_le; [done|done|lia].
Qed.

(** A sampling run: the copy, the shuffle, the slice. The input array is
    read, never written. *)
Lemma getRandomCardIds_run w cardIds ids count :
  heap w !! cardIds = Some ids -> (count < inject_Z (Z.of_nat (length ids)))%Q ->
  getRandomCardIds cardIds count w
  = (inr (S (length (heap w))),
     sampled w (length ids - 1)
       (heap w ++ [shuffled_copy (Math_random w) (draws w) ids;
                   slice_to (shuffled_copy (Math_random w) (draws w) ids) count])).
Proof.
  intros Ha Hcount.
  set (a := length (heap w)). set (w1 := set_heap (heap w ++ [ids]) w).
  assert (Ha1 : heap w1 !! a = Some ids).
  { unfold w1, a. simpl. by rewrite lookup_app_r, Nat.sub_diag by lia. }
  pose proof (shuffle_from_run a (length ids - 1) w1 ids Ha1) as Hrun.
  rewrite (fisher_yates_ext _ (choice (Math_random w) (draws w) (length ids))) in Hrun.
  2: { intros k Hk. unfold choice, w1. simpl. do 2 f_equal. lia. }
  fold (shuffled_copy (Math_random w) (draws w) ids) in Hrun.
  set (s := shuffled_copy (Math_random w) (draws w) ids) in *.
  assert (Hheap : <[a := s]> (heap w1) = heap w ++ [s]).
  { unfold w1, a. simpl. rewrite insert_app_r_alt, Nat.sub_diag by lia. done. }
  unfold getRandomCardIds.
  unfold bind at 1. unfold read at 1. rewrite Ha. cbn [default from_option id].
  replace (Qle_bool (inject_Z (Z.of_nat (length ids))) count) with false.
  2: { symmetry. apply not_true_is_false. intros Hle. apply Qle_bool_iff in Hle.
       by apply Qle_not_lt in Hle. }
  unfold bind at 1. unfold alloc at 1. fold a. fold w1.
  unfold bind at 1. rewrite Hrun. rewrite Hheap.
  unfold bind at 1. unfold read at 1. cbn [heap sampled].
  rewrite lookup_app_r, Nat.sub_diag by (unfold a; lia).
  cbn [lookup list_lookup default from_option id].
  unfold alloc, sampled, set_heap. cbn [heap mockMode collaborator posts Math_random draws now trace].
  rewrite length_app, <- app_assoc. unfold w1, a. simpl.
  f_equal. f_equal. lia.
Qed.

(** What [slice] keeps of a count below the length. *)
Lemma truncate_inject_Z (k : Z) : truncate (inject_Z k) = k.
Proof. unfold truncate, inject_Z. simpl. apply Z.quot_1_r. Qed.

Lemma truncate_le (q : Q) (n : Z) :
  (0 <= n)%Z -> (q < inject_Z n)%Q -> (truncate q <= n)%Z.
Proof.
  unfold truncate, Qlt, inject_Z. simpl. intros Hn Hq.
  destruct (Z.le_gt_cases 0 (Qnum q)) as [Hpos|Hneg].
  - rewrite Z.quot_div_nonneg by lia.
    apply Z.lt_le_incl, Z.div_lt_upper_bound; lia.
  - pose proof (Z.quot_le_mono (Qnum q) 0 (Zpos (Qden q)) ltac:(lia) ltac:(lia)) as H.
    rewrite Z.quot_0_l in H by lia. lia.
Qed.

Lemma truncate_nonneg (q : Q) : (0 <= q)%Q -> (0 <= truncate q)%Z.
Proof.
  unfold truncate, Qle. simpl. intros Hq. apply Z.quot_pos; lia.
Qed.

(** C8. When [count] is at least the number of identifiers,
    [getRandomCardIds] returns the very array it was given and leaves the
    world as it is: no copy, no draw from [Math.random], no write. *)
Theorem getRandomCardIds_all (w : world) (cardIds : nat) (ids : list Z) (count : Q) :
  heap w !! cardIds = Some ids ->
  (inject_Z (Z.of_nat (length ids)) <= count)%Q ->
  getRandomCardIds cardIds count w = (inr cardIds, w)
  /\ read cardIds w = (inr ids, w).
Proof.
  intros Ha Hcount. unfold getRandomCardIds, bind, read. rewrite Ha.
  cbn [default from_option id].
  by replace (Qle_bool (inject_Z (Z.of_nat (length ids))) count) with true
    by (symmetry; by apply Qle_bool_iff).
Qed.

Lemma getRandomCardIds_all_witness :
  getRandomCardIds 0 5%Q deck_world = (inr 0%nat, deck_world)
  /\ read 0 deck_world = (inr [10; 20; 30; 40; 50], deck_world).
Proof.
  apply (getRandomCardIds_all deck_world 0 [10; 20; 30; 40; 50] 5%Q eq_refl).
  vm_compute. discriminate.
Defined.

(** A [count] that is no integer is treated alike: at or above the length
    the input comes back. *)
Example getRandomCardIds_five_and_a_half :
  getRandomCardIds 0 (11 # 2)%Q deck_world = (inr 0%nat, deck_world).
Proof. reflexivity. Qed.

(** C9. When [0 < count < length ids], the identifiers are pairwise
    distinct and [Math.random] keeps to [0, 1), [getRandomCardIds] returns
    a new array holding the first [count] elements of the Fisher-Yates
    shuffle of a copy of the input: for [i] from the last index down to 1
    the copy's element at [i] is exchanged with the one at
    [Math.floor(Math.random() * (i + 1))], an index in [[0, i]], the
    product being the binary64 one. The result has exactly [count]
    elements, no repeats, all from the input. The input array and every
    other array that existed are unchanged; the shuffle has drawn
    [length ids - 1] numbers. (The bound on the length holds of every JS
    array: none has [2^32] elements.) *)
Theorem getRandomCardIds_sample (w : world) (cardIds : nat) (ids : list Z) (count : Z) :
  heap w !! cardIds = Some ids ->
  NoDup ids ->
  (0 < count < Z.of_nat (length ids))%Z ->
  (Z.of_nat (length ids) < 2 ^ 53)%Z ->
  unit_interval (Math_random w) ->
  exists shuffled out w',
    getRandomCardIds cardIds (inject_Z count) w = (inr out, w')
    /\ shuffled
       = fisher_yates (choice (Math_random w) (draws w) (length ids)) (length ids - 1) ids
    /\ (forall i, (i < length ids)%nat ->
                  (choice (Math_random w) (draws w) (length ids) i <= i)%nat)
    /\ shuffled ≡ₚ ids
    /\ heap w' = heap w ++ [shuffled; take (Z.to_nat count) shuffled]
    /\ heap w' !! out = Some (take (Z.to_nat count) shuffled)
    /\ length (take (Z.to_nat count) shuffled) = Z.to_nat count
    /\ NoDup (take (Z.to_nat count) shuffled)
    /\ take (Z.to_nat count) shuffled ⊆ ids
    /\ out <> cardIds
    /\ (forall a xs, heap w !! a = Some xs -> heap w' !! a = Some xs)
    /\ draws w' = (length ids - 1 + draws w)%nat.
Proof.
  intros Ha Hnodup Hcount Hlen Hrnd.
  assert (Hlt : (inject_Z count < inject_Z (Z.of_nat (length ids)))%Q).
  { rewrite <- Zlt_Qlt. lia. }
  pose proof (getRandomCardIds_run w cardIds ids (inject_Z count) Ha Hlt) as Hrun.
  pose proof (shuffled_copy_Permutation (Math_random w) (draws w) ids) as Hs.
  set (s := shuffled_copy (Math_random w) (draws w) ids) in *.
  assert (Hslice : slice_to s (inject_Z count) = take (Z.to_nat count) s).
  { unfold slice_to. rewrite truncate_inject_Z.
    by replace (count <? 0)%Z with false by (symmetry; apply Z.ltb_ge; lia). }
  rewrite Hslice in Hrun.
  exists s, (S (length (heap w))),
    (sampled w (length ids - 1) (heap w ++ [s; take (Z.to_nat count) s])).
  split; [exact Hrun|]. split; [reflexivity|]. split.
  { intros i Hi. by apply choice_le. }
  split; [exact Hs|]. split; [reflexivity|]. split.
  { cbn [heap sampled]. rewrite lookup_app_r by lia.
    by replace (S (length (heap w)) - length (heap w))%nat with 1%nat by lia. }
  split.
  { rewrite length_take_le; [done|]. rewrite (Permutation_length Hs). lia. }
  split.
  { apply (sublist_NoDup _ s); [by rewrite Hs|apply sublist_take]. }
  split.
  { intros x Hx. rewrite <- Hs. by eapply subseteq_take. }
  split.
  { apply lookup_lt_Some in Ha. lia. }
  split; [|reflexivity].
  intros a xs Hxs. cbn [heap sampled]. by apply lookup_app_l_Some.
Qed.

Lemma unit_interval_alternating : unit_interval alternating.
Proof. intros k. unfold alternating. by destruct (Nat.even k). Qed.

Lemma NoDup_deck : NoDup [10; 20; 30; 40; 50].
Proof. apply (bool_decide_unpack _). vm_compute. exact I. Qed.

Lemma getRandomCardIds_sample_witness :
  exists shuffled out w',
    getRandomCardIds 0 (inject_Z 2) deck_world = (inr out, w')
    /\ shuffled = [50; 10; 30; 20; 40]
    /\ (forall i, (i < 5)%nat -> (choice alternating 0 5 i <= i)%nat)
    /\ shuffled ≡ₚ [10; 20; 30; 40; 50]
    /\ heap w' = [[10; 20; 30; 40; 50]] ++ [shuffled; [50; 10]]
    /\ heap w' !! out = Some [50; 10]
    /\ length (take (Z.to_nat 2) shuffled) = Z.to_nat 2
    /\ NoDup (take (Z.to_nat 2) shuffled)
    /\ take (Z.to_nat 2) shuffled ⊆ [10; 20; 30; 40; 50]
    /\ out <> 0%nat
    /\ (forall a xs, heap deck_world !! a = Some xs -> heap w' !! a = Some xs)
    /\ draws w' = (length [10; 20; 30; 40; 50] - 1 + draws deck_world)%nat.
Proof.
  destruct (getRandomCardIds_sample deck_world 0 [10; 20; 30; 40; 50] 2 eq_refl
              NoDup_deck) as (shuffled & out & w' & Hrun & -> & H);
    [split; reflexivity|reflexivity|exact unit_interval_alternating|].
  exists [50; 10; 30; 20; 40], out, w'. split; [exact Hrun|].
  split; [reflexivity|]. exact H.
Defined.

(** With the alternating source the sample of two is reproducible, and the
    caller's array is still what it was. The draws 0.75, 0.25, 0.75, 0.25
    choose the indices 3, 1, 2, 0 for the positions 4, 3, 2, 1. *)
Example getRandomCardIds_deterministic :
  fst (getRandomCardIds 0 2%Q deck_world) = inr 2%nat
  /\ heap (snd (getRandomCardIds 0 2%Q deck_world))
     = [[10; 20; 30; 40; 50]; [50; 10; 30; 20; 40]; [50; 10]]
  /\ map (choice alternating 0 5) [4; 3; 2; 1]%nat = [3; 1; 2; 0]%nat.
Proof. repeat split; reflexivity. Qed.

(** The product is the rounded one: three times the binary64 number next
    to 1/3 is less than 1, the processor rounds it to 1, and the index is
    1; the largest number below 1 still gives an index in range. *)
Example random_index_rounds :
  random_index 0x1.5555555555555p-2%float 2 = 1%nat
  /\ random_index 0x1.fffffffffffffp-1%float 2 = 2%nat
  /\ random_index 0x1.fffffffffffffp-1%float 999 = 999%nat.
Proof. repeat split; vm_compute; reflexivity. Qed.

(** ** Tool dispatcher *)

(** The availability probe never throws and POSTs "version" only. *)
Lemma isAvailable_posts w :
  exists available n evs,
    isAvailable w = (inr available, after w n evs)
    /\ posted evs = replicate n "version".
Proof.
  unfold isAvailable, try_catch, bind, request.
  destruct (request_from_posts "version" Params.empty 3 w)
    as (res & n & evs & -> & Hevs & _).
  destruct res; unfold ret; eexists _, n, evs; split; done.
Qed.

(** The validation of [card_ids] answers by itself. *)
Lemma handleTagReviewedCards_invalid args w :
  invalid_card_ids (ToolArgs.card_ids args) ->
  handleTagReviewedCards args w
  = (inr (Envelope (Text no_card_ids_message) true), w).
Proof.
  intros Hbad. unfold handleTagReviewedCards.
  replace (negb (truthy_arg (ToolArgs.card_ids args))
           || negb (isArray (ToolArgs.card_ids args))
           || (length (items_of (ToolArgs.card_ids args)) =? 0)%nat)
    with true; [reflexivity|].
  destruct Hbad as [->|[H| ->]]; [reflexivity| |reflexivity].
  rewrite H. cbn [negb]. by rewrite orb_true_r.
Qed.

(** C7 (amended). When [card_ids] is missing, not an array or empty,
    [handleTagReviewedCards] returns the error-flagged envelope without
    throwing and without touching the world; the dispatcher, which probes
    availability before every tool, returns an error-flagged envelope
    (never an exception) and the only action it POSTs is the "version" of
    that probe. *)
Theorem tag_reviewed_cards_invalid (w : world) (args : ToolArgs.t) :
  invalid_card_ids (ToolArgs.card_ids args) ->
  handleTagReviewedCards args w
  = (inr (Envelope (Text no_card_ids_message) true), w)
  /\ exists env n evs,
       callTool "tag_reviewed_cards" args w = (inr env, after w n evs)
       /\ isError env = true
       /\ posted evs = replicate n "version".
Proof.
  intros Hbad. split; [by apply handleTagReviewedCards_invalid|].
  destruct (isAvailable_posts w) as (available & n & evs & Hav & Hevs).
  unfold callTool. unfold bind at 1. rewrite Hav.
  destruct (negb available && negb (mockMode (after w n evs))).
  - eexists _, n, evs. split; [reflexivity|]. split; [reflexivity|exact Hevs].
  - unfold try_catch. cbn [String.eqb Ascii.eqb Bool.eqb].
    rewrite (handleTagReviewedCards_invalid args _ Hbad).
    eexists _, n, evs. split; [reflexivity|]. split; [reflexivity|exact Hevs].
Qed.

Lemma tag_reviewed_cards_invalid_witness :
  handleTagReviewedCards empty_card_ids probe_world
  = (inr (Envelope (Text no_card_ids_message) true), probe_world)
  /\ exists env n evs,
       callTool "tag_reviewed_cards" empty_card_ids probe_world
       = (inr env, after probe_world n evs)
       /\ isError env = true
       /\ posted evs = replicate n "version".
Proof.
  apply (tag_reviewed_cards_invalid probe_world empty_card_ids).
  right. right. reflexivity.
Defined.

(** C7 (as stated, fails). [tag_reviewed_cards({card_ids: []})] against a
    running collaborator: the envelope is the validation error, but the
    dispatcher has POSTed the version probe first. *)
Lemma callTool_probes_before_validating :
  callTool "tag_reviewed_cards" empty_card_ids probe_world
  = (inr (Envelope (Text no_card_ids_message) true),
     after probe_world 1 [EPost "version" Params.empty; EDelay 50])
  /\ posted (trace (snd (callTool "tag_reviewed_cards" empty_card_ids probe_world)))
     = ["version"]
  /\ posts (snd (callTool "tag_reviewed_cards" empty_card_ids probe_world)) <> 0%nat.
Proof. split; [reflexivity|]. split; [reflexivity|]. vm_compute. discriminate. Qed.

(** * Further properties *)

(** ** Transport client, the other outcomes *)

(** Every world [request] ends in is the one it started in, after some
    POSTs of its action and some events. *)
Lemma request_from_after retries action p w res w' :
  request_from retries action p w = (res, w') ->
  exists n evs, w' = after w n evs /\ posted evs = replicate n action.
Proof.
  intros H. destruct (request_from_posts action p retries w)
    as (res' & n & evs & H' & Hevs & _).
  rewrite H in H'. injection H' as _ ->. eauto.
Qed.

(** Mock mode only writes log lines. *)
Lemma getMockResponse_logs action p w :
  exists res ls, getMockResponse action p w = (res, after w 0 (map ELog ls)).
Proof.
  unfold getMockResponse, bind, log. cbn [fst snd].
  repeat match goal with
         | |- context [if ?b then _ else _] => destruct b
         end;
    try destruct (Params.notes p); unfold bind, log, ret, throw; cbn [fst snd];
    rewrite ?emit_after, ?after_after; cbn [app Nat.add];
    match goal with
    | |- exists res ls, (?r, after w 0 ?evs) = _ =>
        exists r;
        match evs with
        | [ELog ?a; ELog ?b] => exists [a; b]
        | [ELog ?a; ELog ?b; ELog ?c] => exists [a; b; c]
        end
    end; reflexivity.
Qed.

(** X1. [isAvailable] never throws: it answers [true] when the version
    probe returns and [false] when the probe throws, and leaves the world
    as the probe left it. *)
Theorem isAvailable_total (w : world) :
  exists available,
    isAvailable w = (inr available, snd (request "version" Params.empty w))
    /\ (available = true
        <-> exists r, fst (request "version" Params.empty w) = inr r).
Proof.
  unfold isAvailable, try_catch, bind.
  destruct (request "version" Params.empty w) as [[e|r] w']; cbn [fst snd].
  - exists false. split; [reflexivity|]. split; [done|]. by intros [? ?].
  - exists true. split; [reflexivity|]. split; [eauto|done].
Qed.

(** X2. In mock mode [request] does no network I/O, whatever the action,
    the params and the retries: no POST, no wait, only log lines; the
    collaborator is not consulted. *)
Theorem request_mock_no_io
    (w : world) (action : string) (p : Params.t) (retries : nat) :
  mockMode w = true ->
  exists res evs,
    request_from retries action p w = (res, after w 0 evs)
    /\ posted evs = [] /\ delays evs = []
    /\ request_from retries action p w = getMockResponse action p w.
Proof.
  intros Hmock.
  assert (Hreq : request_from retries action p w = getMockResponse action p w)
    by (destruct retries; cbn [request_from]; by rewrite Hmock).
  destruct (getMockResponse_logs action p w) as (res & ls & Hrun).
  exists res, (map ELog ls). rewrite Hreq, Hrun.
  by rewrite posted_map_ELog, delays_map_ELog.
Qed.

Lemma request_mock_no_io_witness :
  exists res evs,
    request_from 3 "deckNames" Params.empty mock_world = (res, after mock_world 0 evs)
    /\ posted evs = [] /\ delays evs = []
    /\ request_from 3 "deckNames" Params.empty mock_world
       = getMockResponse "deckNames" Params.empty mock_world.
Proof. exact (request_mock_no_io mock_world "deckNames" Params.empty 3 eq_refl). Defined.

(** X3. In mock mode an action the mock does not know is answered with
    [null], not with an error, after the three log lines. *)
Theorem request_mock_unknown_action (w : world) (action : string) (p : Params.t) :
  mockMode w = true ->
  action ∉ mock_actions ->
  request action p w
  = (inr RNull,
     after w 0 [ELog (LogMockAction action); ELog (LogMockParams p);
                ELog (LogMockUnknown action)]).
Proof.
  intros Hmock Hnew. unfold request. cbn [request_from]. rewrite Hmock.
  unfold getMockResponse, bind, log. cbn [fst snd].
  unfold mock_actions in Hnew. rewrite !not_elem_of_cons in Hnew.
  destruct Hnew as (H1 & H2 & H3 & H4 & H5 & _).
  apply String.eqb_neq in H1, H2, H3, H4, H5.
  rewrite H1, H2, H3, H4, H5. unfold bind, log, ret. cbn [fst snd].
  by rewrite !emit_after, !after_after.
Qed.

Lemma request_mock_unknown_action_witness :
  request "deckNames" Params.empty mock_world
  = (inr RNull,
     after mock_world 0 [ELog (LogMockAction "deckNames");
                         ELog (LogMockParams Params.empty);
                         ELog (LogMockUnknown "deckNames")]).
Proof.
  apply (request_mock_unknown_action mock_world "deckNames" Params.empty eq_refl).
  apply (bool_decide_unpack _). vm_compute. exact I.
Defined.

(** X4. Outside mock mode a reply whose error field is [null] or the empty
    string is a success: [request] returns its result after that one POST
    and a 50ms pause, whatever retries are left. *)
Theorem request_success_pause
    (w : world) (action : string) (p : Params.t) (retries : nat)
    (r : jsresult) (e : option string) :
  mockMode w = false ->
  collaborator w (posts w) action p = Response r e ->
  e = None \/ e = Some "" ->
  request_from retries action p w
  = (inr r, after w 1 [EPost action p; EDelay 50]).
Proof.
  intros Hreal H He. apply (request_from_success w action p Hreal retries r e H).
  by destruct He as [-> | ->].
Qed.

Lemma request_success_pause_witness :
  request_from 3 "version" Params.empty probe_world
  = (inr (RStr "6"), after probe_world 1 [EPost "version" Params.empty; EDelay 50]).
Proof.
  apply (request_success_pause probe_world "version" Params.empty 3
           (RStr "6") None eq_refl eq_refl).
  left. reflexivity.
Defined.

(** X5. Outside mock mode a network failure other than a refused or a
    reset connection (a timeout, an oversized reply, ...) is
    not retried: [request] throws the network error naming the code (the
    message when there is no code) after that one POST, whatever retries
    are left. *)
Theorem request_other_network_error
    (w : world) (action : string) (p : Params.t) (retries : nat)
    (code : option string) (m : string) :
  mockMode w = false ->
  collaborator w (posts w) action p = Rejected (AxiosError code m) ->
  code <> Some ECONNREFUSED ->
  code <> Some ECONNRESET ->
  request_from retries action p w
  = (inl (Error ("Network error: " ++ code_or_message (AxiosError code m))),
     after w 1 [EPost action p]).
Proof.
  intros Hreal H Hrefused Hreset.
  destruct retries; cbn [request_from]; rewrite Hreal;
    unfold try_catch, bind; rewrite (post_rejected _ _ _ _ H);
    cbn [isAxiosError code_of];
    rewrite (bool_decide_eq_false_2 _ Hrefused), (bool_decide_eq_false_2 _ Hreset);
    reflexivity.
Qed.

Lemma request_other_network_error_witness :
  request_from 3 "findCards" (Params.ofQuery "tag:leech") silent_world
  = (inl (Error "Network error: ECONNABORTED"),
     after silent_world 1 [EPost "findCards" (Params.ofQuery "tag:leech")]).
Proof.
  apply (request_other_network_error silent_world "findCards"
           (Params.ofQuery "tag:leech") 3 (Some "ECONNABORTED")
           "timeout of 30000ms exceeded" eq_refl eq_refl);
    discriminate.
Defined.

(** X6. Outside mock mode a failure of the POST that is not an axios error
    is thrown on as it is, after that one POST: not wrapped, not retried. *)
Theorem request_rethrows
    (w : world) (action : string) (p : Params.t) (retries : nat) (e : exn) :
  mockMode w = false ->
  collaborator w (posts w) action p = Rejected e ->
  isAxiosError e = false ->
  request_from retries action p w = (inl e, after w 1 [EPost action p]).
Proof.
  intros Hreal H He.
  destruct retries; cbn [request_from]; rewrite Hreal;
    unfold try_catch, bind; rewrite (post_rejected _ _ _ _ H);
    rewrite He; reflexivity.
Qed.

Lemma request_rethrows_witness :
  request_from 3 "version" Params.empty garbled_world
  = (inl (TypeError "Unexpected token < in JSON"),
     after garbled_world 1 [EPost "version" Params.empty]).
Proof.
  exact (request_rethrows garbled_world "version" Params.empty 3
           (TypeError "Unexpected token < in JSON") eq_refl eq_refl eq_refl).
Defined.

(** ** Batch hydrator, its calls and its accounts *)

(** Outside mock mode [request] starts with the POST of its action. *)
Lemma request_from_first_post action p retries w :
  mockMode w = false ->
  exists res n evs,
    request_from retries action p w
    = (res, after w (S n) (EPost action p :: evs)).
Proof.
  intros Hreal.
  destruct retries as [|retries]; cbn [request_from]; rewrite Hreal;
    unfold try_catch, bind, post;
    destruct (collaborator w (posts w) action p) as [r e|e]; cbn [fst snd];
    rewrite emit_after, count_post_after.
  1,3: destruct (truthy e); unfold throw, delay, ret; cbn [fst snd];
       rewrite ?emit_after, ?after_after; eexists _, 0%nat, _; reflexivity.
  all: destruct e as [?|code msg|? ?|?|?]; cbn [isAxiosError code_of];
       unfold throw; try (eexists _, 0%nat, _; reflexivity).
  all: destruct (bool_decide (code = Some ECONNREFUSED));
       try (eexists _, 0%nat, _; reflexivity).
  all: destruct (bool_decide (code = Some ECONNRESET));
       try (eexists _, 0%nat, _; reflexivity).
  unfold bind, log, delay. cbn [fst snd].
  rewrite !emit_after, !after_after.
  match goal with
  | |- context [request_from retries action p ?w'] =>
      destruct (request_from_posts action p retries w')
        as (res & n & evs & -> & _ & _)
  end.
  rewrite after_after. eexists res, n, _. reflexivity.
Qed.

Lemma NoDup_set_elements ids : NoDup (set_elements ids).
Proof.
  unfold set_elements.
  assert (H : forall seen,
             NoDup seen ->
             NoDup (foldl (fun seen y => if bool_decide (y ∈ seen) then seen else seen ++ [y])
                          seen ids)).
  { induction ids as [|y ids IH]; intros seen Hseen; simpl; [done|].
    apply IH. case_bool_decide as Hy; [done|].
    apply NoDup_app. split; [done|]. split; [|apply NoDup_singleton].
    intros x Hx Hx'. apply list_elem_of_singleton in Hx'. by subst. }
  apply H, NoDup_nil_2.
Qed.

(** X7. A failure of either bulk call aborts the hydration: the error of
    the [cardsInfo] call, or of the [notesInfo] call that follows a
    delivered [cardsInfo] reply, is logged and thrown on to the caller
    unchanged, and nothing else is asked of the collaborator. *)
Theorem getCardsInfo_propagates (w w' : world) (cardIds : list Z) (e : exn) :
  cardIds <> [] ->
  (request "cardsInfo" (Params.ofCards cardIds) w = (inl e, w')
   \/ exists cs w1,
        request "cardsInfo" (Params.ofCards cardIds) w = (inr (RCards cs), w1)
        /\ request "notesInfo" (Params.ofNotes (set_elements (map RawCard.note cs))) w1
           = (inl e, w')) ->
  getCardsInfo cardIds w = (inl e, after w' 0 [ELog (LogGetCardsInfoError e)]).
Proof.
  intros Hne H. destruct cardIds as [|cardId cardIds]; [done|].
  unfold getCardsInfo. cbn [length Nat.eqb]. unfold try_catch.
  destruct H as [H|(cs & w1 & H1 & H2)].
  - unfold bind at 1. rewrite H.
    unfold bind, log, throw. by rewrite emit_after.
  - unfold bind at 1. rewrite H1. cbn [as_cards].
    unfold bind at 1. unfold ret at 1. unfold bind at 1. rewrite H2.
    unfold bind, log, throw. by rewrite emit_after.
Qed.

Lemma getCardsInfo_propagates_witness :
  getCardsInfo [11; 12; 13] half_world
  = (inl (Error "AnkiConnect error: collection is not available"),
     after half_world2 0
       [ELog (LogGetCardsInfoError
                (Error "AnkiConnect error: collection is not available"))]).
Proof.
  apply (getCardsInfo_propagates half_world half_world2 [11; 12; 13]
           (Error "AnkiConnect error: collection is not available") three_cards).
  right. exists gap_cards, half_world1. split; reflexivity.
Defined.

(** The note table lost: the cards arrive, the notes call is rejected. *)
Example getCardsInfo_half_world :
  fst (getCardsInfo [11; 12; 13] half_world)
  = inl (Error "AnkiConnect error: collection is not available")
  /\ posted (trace (snd (getCardsInfo [11; 12; 13] half_world)))
     = ["cardsInfo"; "notesInfo"]
  /\ logged (trace (snd (getCardsInfo [11; 12; 13] half_world)))
     = [LogGetCardsInfoError (Error "AnkiConnect error: collection is not available")].
Proof. repeat split. Qed.

(** X8. Outside mock mode, once the [cardsInfo] reply is in, the next thing
    [getCardsInfo] does is one [notesInfo] POST that names every note of the
    reply exactly once (duplicates removed), however the hydration ends. *)
Theorem getCardsInfo_asks_each_note_once
    (w w1 : world) (cardIds : list Z) (cs : list RawCard.t) :
  cardIds <> [] ->
  mockMode w = false ->
  request "cardsInfo" (Params.ofCards cardIds) w = (inr (RCards cs), w1) ->
  exists noteIds res w' evs,
    getCardsInfo cardIds w = (res, w')
    /\ trace w' = trace w1 ++ EPost "notesInfo" (Params.ofNotes noteIds) :: evs
    /\ NoDup noteIds
    /\ (forall x, x ∈ noteIds <-> x ∈ map RawCard.note cs).
Proof.
  intros Hne Hreal H1.
  exists (set_elements (map RawCard.note cs)).
  assert (Hreal1 : mockMode w1 = false).
  { destruct (request_from_after _ _ _ _ _ _ H1) as (n & evs & -> & _). exact Hreal. }
  destruct (request_from_first_post "notesInfo"
              (Params.ofNotes (set_elements (map RawCard.note cs))) 3 w1 Hreal1)
    as (res2 & n & evs & H2).
  destruct cardIds as [|cardId cardIds]; [done|].
  unfold getCardsInfo. cbn [length Nat.eqb]. unfold try_catch.
  unfold bind at 1. rewrite H1. cbn [as_cards].
  unfold bind at 1. unfold ret at 1. unfold bind at 1. unfold request. rewrite H2.
  assert (Hfail : forall e,
             exists res w' evs',
               (let* _ := log (LogGetCardsInfoError e) in @throw (list CardInfo.t) e)
                 (after w1 (S n) (EPost "notesInfo"
                    (Params.ofNotes (set_elements (map RawCard.note cs))) :: evs))
               = (res, w')
               /\ trace w'
                  = trace w1 ++ EPost "notesInfo"
                      (Params.ofNotes (set_elements (map RawCard.note cs))) :: evs').
  { intros e. unfold bind, log, throw. rewrite emit_after, after_after.
    eexists _, _, _. split; [reflexivity|]. cbn [trace after app]. reflexivity. }
  assert (Hrest : NoDup (set_elements (map RawCard.note cs))
                  /\ (forall x, x ∈ set_elements (map RawCard.note cs)
                                <-> x ∈ map RawCard.note cs))
    by (split; [apply NoDup_set_elements|intros; apply elem_of_set_elements]).
  destruct res2 as [e|r].
  - destruct (Hfail e) as (res & w' & evs' & -> & Htrace). eauto 10.
  - destruct r as [| | | | |ns]; cbn [as_notes].
    1-5: unfold bind at 1; unfold throw at 1;
         destruct (Hfail (TypeError "notesInfoArray.forEach is not a function"))
           as (res & w' & evs' & -> & Htrace); eauto 10.
    unfold bind at 1. unfold ret at 1.
    rewrite (process_batches_run _ cs (length cs) 0) by (reflexivity || lia).
    rewrite after_after.
    eexists _, _, _. split; [reflexivity|]. split; [|exact Hrest].
    cbn [trace after app]. reflexivity.
Qed.

Lemma getCardsInfo_asks_each_note_once_witness :
  exists noteIds res w' evs,
    getCardsInfo [11; 12; 13] gap_world = (res, w')
    /\ trace w' = trace gap_world1 ++ EPost "notesInfo" (Params.ofNotes noteIds) :: evs
    /\ NoDup noteIds
    /\ (forall x, x ∈ noteIds <-> x ∈ map RawCard.note gap_cards).
Proof.
  exact (getCardsInfo_asks_each_note_once gap_world gap_world1 [11; 12; 13] gap_cards
           three_cards eq_refl gap_world_cards).
Defined.

Lemma notesInfoMap_of_snoc ns n :
  notesInfoMap_of (ns ++ [n]) = <[RawNote.noteId n := n]> (notesInfoMap_of ns).
Proof. unfold notesInfoMap_of. by rewrite foldl_app. Qed.

(** X9. The note table answers a note identifier with the last entry of
    the [notesInfo] reply that carries it, and with nothing when no entry
    does: a note listed twice is taken from its later entry. *)
Theorem notesInfoMap_of_last (ns : list RawNote.t) (k : Z) :
  notesInfoMap_of ns !! k = last (filter (fun n => RawNote.noteId n = k) ns).
Proof.
  induction ns as [|n ns IH] using rev_ind; [done|].
  rewrite notesInfoMap_of_snoc, filter_app, filter_cons, filter_nil.
  destruct (decide (RawNote.noteId n = k)) as [<-|Hne].
  - by rewrite lookup_insert_eq, last_snoc.
  - by rewrite lookup_insert_ne, app_nil_r.
Qed.

Lemma length_filter_has_note m cs :
  (length (filter (fun c => has_note m c = true) cs)
   + length (filter (fun c => has_note m c = false) cs))%nat
  = length cs.
Proof.
  induction cs as [|c cs IH]; [done|].
  rewrite !filter_cons. destruct (has_note m c).
  - rewrite decide_True, decide_False by done. simpl. lia.
  - rewrite decide_False, decide_True by done. simpl. lia.
Qed.

(** X10. Every card-level record of the [cardsInfo] reply is accounted
    for: when both bulk calls succeed, the number of records returned plus
    the number of missing-note notices the loop logs is the number of
    card-level records received. *)
Theorem getCardsInfo_accounts_for_every_card
    (w w1 w2 : world) (cardIds : list Z) (cs : list RawCard.t) (ns : list RawNote.t) :
  cardIds <> [] ->
  request "cardsInfo" (Params.ofCards cardIds) w = (inr (RCards cs), w1) ->
  request "notesInfo" (Params.ofNotes (set_elements (map RawCard.note cs))) w1
  = (inr (RNotes ns), w2) ->
  exists result w',
    getCardsInfo cardIds w = (inr result, w')
    /\ (length result + (length (logged (trace w')) - length (logged (trace w2))))%nat
       = length cs
    /\ (length result <= length cs)%nat.
Proof.
  intros Hne H1 H2.
  eexists _, _. split; [exact (getCardsInfo_run _ _ _ _ _ _ Hne H1 H2)|].
  cbn [trace after]. rewrite logged_app, logged_loop_events, length_app, length_map.
  pose proof (length_filter_has_note (notesInfoMap_of ns) cs) as Hsum.
  assert (Hlen : length (hydrate (notesInfoMap_of ns) cs)
                 = length (filter (fun c => has_note (notesInfoMap_of ns) c = true) cs)).
  { rewrite <- (length_map CardInfo.id), hydrate_ids. apply length_map. }
  rewrite Hlen. lia.
Qed.

Lemma getCardsInfo_accounts_for_every_card_witness :
  exists result w',
    getCardsInfo [11; 12; 13] gap_world = (inr result, w')
    /\ (length result
        + (length (logged (trace w')) - length (logged (trace gap_world2))))%nat
       = length gap_cards
    /\ (length result <= length gap_cards)%nat.
Proof.
  exact (getCardsInfo_accounts_for_every_card gap_world gap_world1 gap_world2
           [11; 12; 13] gap_cards gap_notes
           three_cards gap_world_cards gap_world_notes).
Defined.

Lemma total_wait_app t t' : total_wait (t ++ t') = total_wait t + total_wait t'.
Proof.
  unfold total_wait. rewrite delays_app.
  induction (delays t) as [|x l IH]; simpl; [done|]. rewrite IH. lia.
Qed.

(** The waits of the first [m] of [n] records, [m < n]. *)
Lemma pacing_prefix_total n m :
  (m < n)%nat ->
  foldr Z.add 0 (flat_map (fun k => wait_before k ++ wait_after n k) (seq 0 m))
  = 100 * Z.of_nat (m - 1) + 500 * Z.of_nat (m / 5).
Proof.
  induction m as [|m IH]; intros Hm; [reflexivity|].
  rewrite seq_S, flat_map_app, foldr_app. cbn [flat_map Nat.add].
  rewrite app_nil_r.
  assert (Hsum : forall l acc, foldr Z.add acc l = foldr Z.add 0 l + acc).
  { induction l as [|x l IHl]; intros acc; simpl; [lia|]. rewrite IHl. lia. }
  rewrite Hsum, IH by lia.
  unfold wait_before, wait_after.
  replace (m + 1 <? n)%nat with true by (symmetry; apply Nat.ltb_lt; lia).
  rewrite andb_true_r.
  pose proof (Nat2Z.inj_div m 5) as Hd. pose proof (Nat2Z.inj_div (S m) 5) as Hd'.
  pose proof (Nat2Z.inj_mod (m + 1) 5) as Hr.
  change (Z.of_nat 5) with 5 in *.
  destruct (Nat.eqb_spec ((m + 1) mod 5) 0) as [Hmod|Hmod];
    destruct (Nat.ltb_spec 0 m) as [Hpos|Hpos]; cbn [app foldr];
    rewrite Hd, Hd'; Z.div_mod_to_equations; lia.
Qed.

(** The waits of a whole run over [n >= 1] records. *)
Lemma pacing_total n :
  (1 <= n)%nat ->
  foldr Z.add 0 (pacing n)
  = 100 * (Z.of_nat n - 1) + 500 * ((Z.of_nat n - 1) / 5).
Proof.
  intros Hn. unfold pacing. destruct n as [|m]; [lia|].
  rewrite seq_S, flat_map_app, foldr_app. cbn [flat_map Nat.add].
  rewrite app_nil_r.
  assert (Hsum : forall l acc, foldr Z.add acc l = foldr Z.add 0 l + acc).
  { induction l as [|x l IHl]; intros acc; simpl; [lia|]. rewrite IHl. lia. }
  rewrite Hsum, pacing_prefix_total by lia.
  unfold wait_before, wait_after.
  replace (m + 1 <? S m)%nat with false by (symmetry; apply Nat.ltb_ge; lia).
  rewrite andb_false_r, app_nil_r.
  pose proof (Nat2Z.inj_div m 5) as Hd. change (Z.of_nat 5) with 5 in Hd.
  rewrite Hd. replace (Z.of_nat (S m) - 1) with (Z.of_nat m) by lia.
  destruct (Nat.ltb_spec 0 m) as [Hpos|Hpos]; cbn [foldr]; lia.
Qed.

(** X11. When both bulk calls succeed and deliver [n >= 1] card-level
    records, the loop of [getCardsInfo] spends
    [100 (n - 1) + 500 ((n - 1) / 5)] ms waiting, on top of the waits of the
    two calls: the time grows with the batch, not with its content. *)
Theorem getCardsInfo_total_wait
    (w w1 w2 : world) (cardIds : list Z) (cs : list RawCard.t) (ns : list RawNote.t) :
  cardIds <> [] ->
  request "cardsInfo" (Params.ofCards cardIds) w = (inr (RCards cs), w1) ->
  request "notesInfo" (Params.ofNotes (set_elements (map RawCard.note cs))) w1
  = (inr (RNotes ns), w2) ->
  cs <> [] ->
  exists result w',
    getCardsInfo cardIds w = (inr result, w')
    /\ total_wait (trace w')
       = total_wait (trace w2)
         + 100 * (Z.of_nat (length cs) - 1)
         + 500 * ((Z.of_nat (length cs) - 1) / 5).
Proof.
  intros Hne H1 H2 Hcs.
  eexists _, _. split; [exact (getCardsInfo_run _ _ _ _ _ _ Hne H1 H2)|].
  cbn [trace after]. rewrite total_wait_app. unfold total_wait at 2.
  rewrite delays_loop_events. fold (pacing (length cs)).
  rewrite pacing_total; [lia|]. destruct cs; [done|simpl; lia].
Qed.

Lemma gap_cards_nonempty : gap_cards <> [].
Proof. discriminate. Qed.

Lemma getCardsInfo_total_wait_witness :
  exists result w',
    getCardsInfo [11; 12; 13] gap_world = (inr result, w')
    /\ total_wait (trace w')
       = total_wait (trace gap_world2)
         + 100 * (Z.of_nat (length gap_cards) - 1)
         + 500 * ((Z.of_nat (length gap_cards) - 1) / 5).
Proof.
  exact (getCardsInfo_total_wait gap_world gap_world1 gap_world2
           [11; 12; 13] gap_cards gap_notes
           three_cards gap_world_cards gap_world_notes gap_cards_nonempty).
Defined.

(** Twelve cards in mock mode: eleven short waits and two long ones. *)
Example getCardsInfo_twelve_cards :
  total_wait (trace (snd (getCardsInfo (map Z.of_nat (seq 1 12)) mock_world))) = 2100.
Proof. reflexivity. Qed.

(** ** Tagging *)

Lemma date_stamp_run w : date_stamp w = (inr (stamp w), w).
Proof. unfold date_stamp, stamp. by destruct (today w) as [[year month] day]. Qed.

Lemma generateReviewedTag_run customPrefix w :
  generateReviewedTag customPrefix w = (inr (reviewed_tag customPrefix w), w).
Proof. unfold generateReviewedTag, bind. by rewrite date_stamp_run. Qed.

(** A tag is read back from what follows its prefix. *)
Lemma append_cancel_l (s a b : string) : (s ++ a)%string = (s ++ b)%string -> a = b.
Proof. induction s as [|c s IH]; simpl; [done|]. intros [= H]. by apply IH. Qed.

Lemma reviewed_tag_eq customPrefix w w' :
  reviewed_tag customPrefix w' = reviewed_tag customPrefix w <-> stamp w' = stamp w.
Proof.
  unfold reviewed_tag. split; [|by intros ->].
  intros H. apply append_cancel_l in H. by apply (append_cancel_l "_") in H.
Qed.

Lemma set_elements_nonempty ids : ids <> [] -> set_elements ids <> [].
Proof.
  destruct ids as [|x ids]; [done|]. intros _ E.
  assert (H : x ∈ set_elements (x :: ids)) by (apply elem_of_set_elements; by left).
  rewrite E in H. by apply elem_of_nil in H.
Qed.

(** A tagging run, given what the two calls return. *)
Lemma addTagsToCards_run w w1 w2 cardIds customTagPrefix cs r :
  cardIds <> [] ->
  request "cardsInfo" (Params.ofCards cardIds) w = (inr (RCards cs), w1) ->
  cs <> [] ->
  request "addTags"
          (Params.ofNotesTags (set_elements (map RawCard.note cs))
                              (reviewed_tag customTagPrefix w1)) w1
  = (inr r, w2) ->
  addTagsToCards cardIds customTagPrefix w
  = (inr r,
     after w2 0 [ELog (LogTagAdded (reviewed_tag customTagPrefix w1)
                         (length (set_elements (map RawCard.note cs)))
                         (length cardIds))]).
Proof.
  intros Hne H1 Hcs H2. unfold addTagsToCards.
  destruct cardIds as [|cardId cardIds]; [done|]. cbn [length Nat.eqb].
  unfold try_catch. unfold bind at 1. rewrite H1. cbn [as_cards].
  unfold bind at 1. unfold ret at 1.
  destruct (set_elements (map RawCard.note cs)) as [|noteId noteIds] eqn:Hset.
  { exfalso. apply (set_elements_nonempty (map RawCard.note cs)); [|done].
    by destruct cs. }
  cbn [length Nat.eqb].
  unfold bind at 1. rewrite generateReviewedTag_run.
  unfold bind at 1. rewrite H2.
  unfold bind, log, ret. by rewrite emit_after.
Qed.

(** X12. [addTagsToCards] resolves the cards to their notes and adds the
    tag in one call: when [cardsInfo] delivers at least one card and
    [addTags] answers, the [addTags] request names each note once and the
    tag [prefix_YYYYMMDD] (the default prefix when none is given, the date
    read once the cards are known), its result is handed back as it is, and
    the only further effect is the log line counting notes and cards. *)
Theorem addTagsToCards_tags_notes
    (w w1 w2 : world) (cardIds : list Z) (customTagPrefix : option string)
    (cs : list RawCard.t) (r : jsresult) :
  cardIds <> [] ->
  request "cardsInfo" (Params.ofCards cardIds) w = (inr (RCards cs), w1) ->
  cs <> [] ->
  request "addTags"
          (Params.ofNotesTags (set_elements (map RawCard.note cs))
                              (reviewed_tag customTagPrefix w1)) w1
  = (inr r, w2) ->
  addTagsToCards cardIds customTagPrefix w
  = (inr r,
     after w2 0 [ELog (LogTagAdded (reviewed_tag customTagPrefix w1)
                         (length (set_elements (map RawCard.note cs)))
                         (length cardIds))])
  /\ NoDup (set_elements (map RawCard.note cs))
  /\ (forall c, c ∈ cs -> RawCard.note c ∈ set_elements (map RawCard.note cs))
  /\ reviewed_tag customTagPrefix w1
     = (default default_prefix customTagPrefix ++ "_" ++ stamp w1)%string.
Proof.
  intros Hne H1 Hcs H2.
  split; [by apply addTagsToCards_run|].
  split; [apply NoDup_set_elements|].
  split; [|reflexivity].
  intros c Hc. apply elem_of_set_elements, list_elem_of_In, in_map.
  by apply list_elem_of_In.
Qed.

Lemma tagging_world_cards :
  request "cardsInfo" (Params.ofCards [11; 12; 13]) tagging_world
  = (inr (RCards gap_cards), tagging_world1).
Proof. reflexivity. Qed.

Lemma tagging_world_addTags :
  request "addTags"
          (Params.ofNotesTags (set_elements (map RawCard.note gap_cards))
                              (reviewed_tag (Some "done") tagging_world1))
          tagging_world1
  = (inr RNull, tagging_world2).
Proof. reflexivity. Qed.

Lemma addTagsToCards_tags_notes_witness :
  addTagsToCards [11; 12; 13] (Some "done") tagging_world
  = (inr RNull,
     after tagging_world2 0
       [ELog (LogTagAdded (reviewed_tag (Some "done") tagging_world1)
                (length (set_elements (map RawCard.note gap_cards)))
                (length [11; 12; 13]))])
  /\ NoDup (set_elements (map RawCard.note gap_cards))
  /\ (forall c, c ∈ gap_cards ->
                RawCard.note c ∈ set_elements (map RawCard.note gap_cards))
  /\ reviewed_tag (Some "done") tagging_world1
     = (default default_prefix (Some "done") ++ "_" ++ stamp tagging_world1)%string.
Proof.
  exact (addTagsToCards_tags_notes tagging_world tagging_world1 tagging_world2
           [11; 12; 13] (Some "done") gap_cards RNull
           three_cards tagging_world_cards gap_cards_nonempty tagging_world_addTags).
Defined.

Example addTagsToCards_tagging_world :
  posted (trace (snd (addTagsToCards [11; 12; 13] (Some "done") tagging_world)))
  = ["cardsInfo"; "addTags"]
  /\ reviewed_tag (Some "done") tagging_world1 = "done_20250115".
Proof. split; reflexivity. Qed.

(** X13. [addTagsToCards] adds no tag when there is nothing to tag: with no
    card identifier it answers [false] without any call, and when
    [cardsInfo] delivers no card it answers [false] without an [addTags]
    call; either way the reason is logged. *)
Theorem addTagsToCards_nothing_to_tag
    (w w1 : world) (cardIds : list Z) (customTagPrefix : option string) :
  addTagsToCards [] customTagPrefix w = (inr (RBool false), after w 0 [ELog LogNoCards])
  /\ (cardIds <> [] ->
      request "cardsInfo" (Params.ofCards cardIds) w = (inr (RCards []), w1) ->
      addTagsToCards cardIds customTagPrefix w
      = (inr (RBool false), after w1 0 [ELog LogNoNoteIds])).
Proof.
  split.
  - unfold addTagsToCards. cbn [length Nat.eqb]. unfold bind, log, ret.
    by rewrite emit_after.
  - intros Hne H1. unfold addTagsToCards.
    destruct cardIds as [|cardId cardIds]; [done|]. cbn [length Nat.eqb].
    unfold try_catch. unfold bind at 1. rewrite H1. cbn [as_cards].
    unfold bind at 1. unfold ret at 1. cbn [map set_elements foldl length Nat.eqb].
    unfold bind, log, ret. by rewrite emit_after.
Qed.

Lemma addTagsToCards_nothing_to_tag_witness :
  addTagsToCards [] None cardless_world
  = (inr (RBool false), after cardless_world 0 [ELog LogNoCards])
  /\ addTagsToCards [11; 12; 13] None cardless_world
     = (inr (RBool false), after cardless_world1 0 [ELog LogNoNoteIds]).
Proof.
  destruct (addTagsToCards_nothing_to_tag cardless_world cardless_world1
              [11; 12; 13] None) as [Hnone Hcardless].
  split; [exact Hnone|]. apply Hcardless; [exact three_cards|reflexivity].
Defined.

(** Four digits for a four-digit year, two for a month or a day. *)
Lemma pretty_year_length year :
  1000 <= year <= 9999 -> String.length (pretty year) = 4%nat.
Proof.
  intros Hyear.
  assert (H : forallb (fun y => (String.length (pretty y) =? 4)%nat) (seqZ 1000 9000) = true)
    by (vm_compute; reflexivity).
  rewrite forallb_forall in H. apply Nat.eqb_eq, H, list_elem_of_In, elem_of_seqZ. lia.
Qed.

Lemma pad2_length n : 0 <= n <= 99 -> String.length (pad2 n) = 2%nat.
Proof.
  intros Hn.
  assert (H : forallb (fun y => (String.length (pad2 y) =? 2)%nat) (seqZ 0 100) = true)
    by (vm_compute; reflexivity).
  rewrite forallb_forall in H. apply Nat.eqb_eq, H, list_elem_of_In, elem_of_seqZ. lia.
Qed.

(** X14. For a date of a four-digit year, [generateReviewedTag] returns the
    prefix (the default one when none is given), an underscore and eight
    characters: year, month and day, the last two zero-padded to two
    characters each. It changes nothing in the world. *)
Theorem generateReviewedTag_shape
    (w : world) (customPrefix : option string) (year month day : Z) :
  today w = (year, month, day) ->
  1000 <= year <= 9999 -> 0 <= month <= 11 -> 1 <= day <= 31 ->
  exists yyyy mm dd,
    generateReviewedTag customPrefix w
    = (inr (default default_prefix customPrefix ++ "_" ++ yyyy ++ mm ++ dd)%string, w)
    /\ String.length yyyy = 4%nat /\ String.length mm = 2%nat
    /\ String.length dd = 2%nat
    /\ yyyy = pretty year
    /\ (mm = pretty (month + 1) \/ mm = ("0" ++ pretty (month + 1))%string)
    /\ (dd = pretty day \/ dd = ("0" ++ pretty day)%string).
Proof.
  intros Hnow Hyear Hmonth Hday.
  exists (pretty year), (pad2 (month + 1)), (pad2 day).
  split.
  { rewrite generateReviewedTag_run. unfold reviewed_tag, stamp. by rewrite Hnow. }
  split; [by apply pretty_year_length|].
  split; [apply pad2_length; lia|].
  split; [apply pad2_length; lia|].
  split; [reflexivity|].
  unfold pad2. split.
  - destruct (String.length (pretty (month + 1)%Z) <? 2)%nat; [by right|by left].
  - destruct (String.length (pretty day) <? 2)%nat; [by right|by left].
Qed.

Lemma generateReviewedTag_shape_witness :
  exists yyyy mm dd,
    generateReviewedTag None tagging_world
    = (inr (default default_prefix None ++ "_" ++ yyyy ++ mm ++ dd)%string, tagging_world)
    /\ String.length yyyy = 4%nat /\ String.length mm = 2%nat
    /\ String.length dd = 2%nat
    /\ yyyy = pretty 2025
    /\ (mm = pretty (0 + 1) \/ mm = ("0" ++ pretty (0 + 1))%string)
    /\ (dd = pretty 15 \/ dd = ("0" ++ pretty 15)%string).
Proof.
  apply (generateReviewedTag_shape tagging_world None 2025 0 15 eq_refl); lia.
Defined.

(** The prefix reported is the prefix sent unless it is the empty string. *)
Lemma reported_prefix customTagPrefix :
  customTagPrefix <> Some "" ->
  (if truthy customTagPrefix then default "" customTagPrefix else default_prefix)
  = default default_prefix customTagPrefix.
Proof.
  intros Hne. destruct customTagPrefix as [s|]; [|reflexivity].
  simpl. destruct (String.eqb_spec s ""); [by subst|reflexivity].
Qed.

(** The handler after a valid [card_ids], given what [addTagsToCards]
    returns. *)
Lemma handleTagReviewedCards_run args w ids r w' :
  ToolArgs.card_ids args = Some (AArr ids) -> ids <> [] ->
  ToolArgs.custom_tag_prefix args <> Some "" ->
  addTagsToCards ids (ToolArgs.custom_tag_prefix args) w = (inr r, w') ->
  handleTagReviewedCards args w
  = (inr (if truthy_result r
          then tagged_envelope ids (reviewed_tag (ToolArgs.custom_tag_prefix args) w')
          else Envelope (Text tagging_failed_message) true), w').
Proof.
  intros Hids Hne Hprefix Hrun. unfold handleTagReviewedCards. rewrite Hids.
  destruct ids as [|id ids]; [done|].
  cbn [truthy_arg isArray items_of negb orb length Nat.eqb].
  unfold bind at 1. rewrite Hrun.
  destruct (truthy_result r); [|reflexivity].
  unfold bind. rewrite date_stamp_run. unfold ret.
  by rewrite (reported_prefix _ Hprefix).
Qed.

(** X15. With a non-empty [card_ids] array and a prefix that is absent or
    non-empty, when [cardsInfo] delivers at least one card and [addTags]
    answers, [handleTagReviewedCards] reports success exactly when the
    [addTags] result is truthy; a falsy result ([null], [false]) is reported
    as a failure although the tag addition was requested. The tag reported
    carries the date read after the [addTags] call, the tag sent the date
    read before it: the two are the same tag exactly when the two dates are
    written the same. No other call is made, and the only further effect
    is the log line of [addTagsToCards]. *)
Theorem handleTagReviewedCards_outcome
    (w w1 w2 : world) (args : ToolArgs.t) (ids : list Z)
    (cs : list RawCard.t) (r : jsresult) :
  ToolArgs.card_ids args = Some (AArr ids) -> ids <> [] ->
  ToolArgs.custom_tag_prefix args <> Some "" ->
  request "cardsInfo" (Params.ofCards ids) w = (inr (RCards cs), w1) ->
  cs <> [] ->
  request "addTags"
          (Params.ofNotesTags (set_elements (map RawCard.note cs))
                              (reviewed_tag (ToolArgs.custom_tag_prefix args) w1)) w1
  = (inr r, w2) ->
  exists w',
    w' = after w2 0 [ELog (LogTagAdded (reviewed_tag (ToolArgs.custom_tag_prefix args) w1)
                             (length (set_elements (map RawCard.note cs)))
                             (length ids))]
    /\ handleTagReviewedCards args w
       = (inr (if truthy_result r
               then tagged_envelope ids (reviewed_tag (ToolArgs.custom_tag_prefix args) w')
               else Envelope (Text tagging_failed_message) true), w')
    /\ posted (trace w') = posted (trace w2)
    /\ (reviewed_tag (ToolArgs.custom_tag_prefix args) w'
        = reviewed_tag (ToolArgs.custom_tag_prefix args) w1
        <-> stamp w' = stamp w1).
Proof.
  intros Hids Hne Hprefix H1 Hcs H2.
  pose proof (addTagsToCards_run _ _ _ _ _ _ _ Hne H1 Hcs H2) as Hrun.
  eexists. split; [reflexivity|]. split.
  { exact (handleTagReviewedCards_run args w ids r _ Hids Hne Hprefix Hrun). }
  split; [|apply reviewed_tag_eq].
  cbn [trace after]. by rewrite posted_app, app_nil_r.
Qed.

Lemma handleTagReviewedCards_outcome_witness :
  exists w',
    w' = after tagging_world2 0
           [ELog (LogTagAdded (reviewed_tag (Some "done") tagging_world1)
                    (length (set_elements (map RawCard.note gap_cards)))
                    (length [11; 12; 13]))]
    /\ handleTagReviewedCards tag_three_cards tagging_world
       = (inr (if truthy_result RNull
               then tagged_envelope [11; 12; 13] (reviewed_tag (Some "done") w')
               else Envelope (Text tagging_failed_message) true), w')
    /\ posted (trace w') = posted (trace tagging_world2)
    /\ (reviewed_tag (Some "done") w' = reviewed_tag (Some "done") tagging_world1
        <-> stamp w' = stamp tagging_world1).
Proof.
  apply (handleTagReviewedCards_outcome tagging_world tagging_world1 tagging_world2
           tag_three_cards [11; 12; 13] gap_cards RNull eq_refl three_cards).
  - discriminate.
  - exact tagging_world_cards.
  - exact gap_cards_nonempty.
  - exact tagging_world_addTags.
Defined.

(** A run over midnight: the collaborator is asked to add [done_20250115],
    and the tool reports [done_20250116]. *)
Example handleTagReviewedCards_over_midnight :
  handleTagReviewedCards tag_three_cards midnight_world
  = (inr (tagged_envelope [11; 12; 13] "done_20250116"),
     after midnight_world 2
       [EPost "cardsInfo" (Params.ofCards [11; 12; 13]); EDelay 50;
        EPost "addTags" (Params.ofNotesTags [101; 102; 103] "done_20250115"); EDelay 50;
        ELog (LogTagAdded "done_20250115" 3 3)]).
Proof. reflexivity. Qed.

(** The tags were asked for, the answer was [null], the tool says failed. *)
Example handleTagReviewedCards_null_result :
  fst (handleTagReviewedCards tag_three_cards tagging_world)
  = inr (Envelope (Text tagging_failed_message) true)
  /\ posted (trace (snd (handleTagReviewedCards tag_three_cards tagging_world)))
     = ["cardsInfo"; "addTags"].
Proof. split; reflexivity. Qed.

(** With the empty string as prefix the tag sent starts with the
    underscore, the tag reported with the default prefix. *)
Example handleTagReviewedCards_empty_prefix :
  let args := ToolArgs.mk None None (Some (AArr [11; 12; 13])) (Some "") in
  logged (trace (snd (handleTagReviewedCards args mock_world)))
  = [LogMockAction "cardsInfo"; LogMockParams (Params.ofCards [11; 12; 13]);
     LogMockAction "addTags";
     LogMockParams (Params.ofNotesTags [1000011; 1000012; 1000013] "_20250115");
     LogMockAddTag (Some "_20250115") [1000011; 1000012; 1000013];
     LogTagAdded "_20250115" 3 3]
  /\ fst (handleTagReviewedCards args mock_world)
     = inr (tagged_envelope [11; 12; 13] (default_prefix ++ "_20250115")).
Proof. split; reflexivity. Qed.

Lemma getMockResponse_addTags w ids tag :
  getMockResponse "addTags" (Params.ofNotesTags ids tag) w
  = (inr (RBool true),
     after w 0 [ELog (LogMockAction "addTags");
                ELog (LogMockParams (Params.ofNotesTags ids tag));
                ELog (LogMockAddTag (Some tag) ids)]).
Proof.
  unfold getMockResponse, bind, log. simpl. unfold ret.
  by rewrite !emit_after, !after_after.
Qed.

Lemma getMockResponse_version w :
  getMockResponse "version" Params.empty w
  = (inr (RStr "6"),
     after w 0 [ELog (LogMockAction "version"); ELog (LogMockParams Params.empty)]).
Proof.
  unfold getMockResponse, bind, log. simpl. unfold ret.
  by rewrite !emit_after, !after_after.
Qed.

(** In mock mode the collaborator is always there. *)
Lemma isAvailable_mock w :
  mockMode w = true ->
  isAvailable w
  = (inr true,
     after w 0 [ELog (LogMockAction "version"); ELog (LogMockParams Params.empty)]).
Proof.
  intros Hmock. unfold isAvailable, try_catch, bind.
  by rewrite request_mock, getMockResponse_version.
Qed.

(** X16. In mock mode [tag_reviewed_cards] with a non-empty [card_ids]
    array and a prefix that is absent or non-empty always succeeds: the
    dispatcher returns the success envelope naming the cards and the tag
    [prefix_YYYYMMDD], the date being the one at the end of the run, eight
    log lines on, without a POST and without a wait. *)
Theorem tag_reviewed_cards_mock (w : world) (args : ToolArgs.t) (ids : list Z) :
  mockMode w = true ->
  ToolArgs.card_ids args = Some (AArr ids) -> ids <> [] ->
  ToolArgs.custom_tag_prefix args <> Some "" ->
  exists evs,
    callTool "tag_reviewed_cards" args w
    = (inr (tagged_envelope ids
              (reviewed_tag (ToolArgs.custom_tag_prefix args) (after w 0 evs))),
       after w 0 evs)
    /\ posted evs = [] /\ delays evs = [] /\ length evs = 8%nat.
Proof.
  intros Hmock Hids Hne Hprefix.
  unfold callTool. unfold bind at 1. rewrite (isAvailable_mock w Hmock).
  cbn [negb andb]. unfold try_catch. cbn [String.eqb Ascii.eqb Bool.eqb].
  set (w0 := after w 0 _).
  assert (Hcards : map mockCard ids <> []) by (by destruct ids).
  erewrite (handleTagReviewedCards_run args w0 ids (RBool true));
    [|done|done|done|].
  2: { eapply addTagsToCards_run; [done| |exact Hcards|].
       - rewrite request_mock by done. apply getMockResponse_cardsInfo.
       - rewrite request_mock by done. apply getMockResponse_addTags. }
  cbn [truthy_result]. unfold w0. rewrite !after_after.
  eexists. split; [reflexivity|]. repeat split; reflexivity.
Qed.

Lemma tag_reviewed_cards_mock_witness :
  exists evs,
    callTool "tag_reviewed_cards" tag_three_cards mock_world
    = (inr (tagged_envelope [11; 12; 13]
              (reviewed_tag (Some "done") (after mock_world 0 evs))),
       after mock_world 0 evs)
    /\ posted evs = [] /\ delays evs = [] /\ length evs = 8%nat.
Proof.
  apply (tag_reviewed_cards_mock mock_world tag_three_cards [11; 12; 13]
           eq_refl eq_refl three_cards).
  discriminate.
Defined.

(** ** Tool dispatcher, the other paths *)

(** X17. The dispatcher never throws: whatever the tool name, the
    arguments and the collaborator, it returns an envelope. *)
Theorem callTool_never_throws (name : string) (args : ToolArgs.t) (w : world) :
  exists env w', callTool name args w = (inr env, w').
Proof.
  destruct (isAvailable_posts w) as (available & n & evs & Hav & _).
  unfold callTool. unfold bind at 1. rewrite Hav.
  destruct (negb available && negb (mockMode (after w n evs))); [by eexists _, _|].
  unfold try_catch.
  match goal with
  | |- context [let (_, _) := ?m ?w0 in _] => destruct (m w0) as [[e|env] w']
  end; unfold ret; by eexists _, _.
Qed.

(** X18. Outside mock mode, when the version probe fails (for whatever
    reason, after whatever retries), the dispatcher answers any tool with
    the could-not-connect envelope, error-flagged, and runs no handler: the
    world is as the probe left it. *)
Theorem callTool_unavailable
    (name : string) (args : ToolArgs.t) (w : world) (e : exn) :
  mockMode w = false ->
  fst (request "version" Params.empty w) = inl e ->
  callTool name args w
  = (inr (Envelope (Text unavailable_message) true),
     snd (request "version" Params.empty w)).
Proof.
  intros Hreal Hprobe.
  unfold callTool. unfold bind at 1. unfold isAvailable, try_catch, bind.
  destruct (request "version" Params.empty w) as [res w'] eqn:Hreq.
  destruct (request_from_after _ _ _ _ _ _ Hreq) as (n & evs & -> & _).
  cbn [fst] in Hprobe. subst res. unfold ret.
  cbn [snd mockMode after negb andb]. by rewrite Hreal.
Qed.

Lemma callTool_unavailable_witness :
  callTool "get_leech_cards" ids_only refusing_world
  = (inr (Envelope (Text unavailable_message) true),
     snd (request "version" Params.empty refusing_world)).
Proof.
  exact (callTool_unavailable "get_leech_cards" ids_only refusing_world
           (Error refused_message) eq_refl eq_refl).
Defined.

(** X19. A tool name other than the two known ones gets an error-flagged
    envelope, never an exception: the could-not-connect message when the
    version probe fails outside mock mode, and otherwise the message of the
    method-not-found error, which the SDK words
    [MCP error -32601: Unknown tool: <name>]. The world is as the probe
    left it: the only action POSTed is "version". *)
Theorem callTool_unknown_tool (name : string) (args : ToolArgs.t) (w : world) :
  name <> "get_leech_cards" -> name <> "tag_reviewed_cards" ->
  exists n evs,
    snd (request "version" Params.empty w) = after w n evs
    /\ posted evs = replicate n "version"
    /\ callTool name args w
       = (inr (Envelope
                 (Text (if probe_fails w && negb (mockMode w)
                        then unavailable_message
                        else "Error: MCP error -32601: Unknown tool: " ++ name)%string)
                 true),
          after w n evs).
Proof.
  intros H1 H2. apply String.eqb_neq in H1, H2.
  destruct (request_from_posts "version" Params.empty 3 w)
    as (res & n & evs & Hreq & Hevs & _).
  fold (request "version" Params.empty) in Hreq.
  exists n, evs. rewrite Hreq. split; [reflexivity|]. split; [exact Hevs|].
  unfold callTool. unfold bind at 1. unfold isAvailable, try_catch, bind at 1, probe_fails.
  rewrite Hreq. cbn [fst].
  destruct res as [e|r]; unfold ret at 1; cbn [negb andb mockMode after].
  - destruct (mockMode w); cbn [negb]; [|reflexivity].
    rewrite H1, H2. reflexivity.
  - rewrite H1, H2. reflexivity.
Qed.

Lemma callTool_unknown_tool_witness :
  exists n evs,
    snd (request "version" Params.empty probe_world) = after probe_world n evs
    /\ posted evs = replicate n "version"
    /\ callTool "delete_cards" ids_only probe_world
       = (inr (Envelope (Text "Error: MCP error -32601: Unknown tool: delete_cards") true),
          after probe_world n evs).
Proof.
  apply (callTool_unknown_tool "delete_cards" ids_only probe_world); discriminate.
Defined.

(** The same call when nothing listens: the probe is what is reported. *)
Example callTool_unknown_tool_refused :
  fst (callTool "delete_cards" ids_only refusing_world)
  = inr (Envelope (Text unavailable_message) true)
  /\ probe_fails refusing_world = true /\ probe_fails probe_world = false.
Proof. repeat split; reflexivity. Qed.

(** X20. When the search finds no leech card, [get_leech_cards] answers
    with the none-found message in an envelope that is not error-flagged,
    whatever its arguments, and asks nothing more of the collaborator. *)
Theorem handleGetLeechCards_none (args : ToolArgs.t) (w w1 : world) :
  request "findCards" (Params.ofQuery "tag:leech") w = (inr (RIds []), w1) ->
  exists w',
    handleGetLeechCards args w = (inr (Envelope (Text no_leech_message) false), w')
    /\ trace w' = trace w1 /\ posts w' = posts w1.
Proof.
  intros H. unfold handleGetLeechCards, findLeechCards.
  unfold bind at 1. rewrite H. cbn [as_ids].
  unfold bind at 1. unfold ret at 1. unfold bind at 1. unfold alloc at 1.
  cbn [length Nat.eqb]. unfold ret. by eexists.
Qed.

Lemma handleGetLeechCards_none_witness :
  exists w',
    handleGetLeechCards ids_only leechless_world
    = (inr (Envelope (Text no_leech_message) false), w')
    /\ trace w' = trace leechless_world1 /\ posts w' = posts leechless_world1.
Proof.
  exact (handleGetLeechCards_none ids_only leechless_world leechless_world1 eq_refl).
Defined.

(** The sampler hands back the array it was given when asked for all. *)
Lemma getRandomCardIds_keep w a ids count :
  heap w !! a = Some ids -> (inject_Z (Z.of_nat (length ids)) <= count)%Q ->
  getRandomCardIds a count w = (inr a, w).
Proof.
  intros Ha Hcount. unfold getRandomCardIds, bind, read. rewrite Ha.
  cbn [default from_option id].
  by replace (Qle_bool (inject_Z (Z.of_nat (length ids))) count) with true
    by (symmetry; by apply Qle_bool_iff).
Qed.

(** X21. With [detailed: false] and a [count] that is absent, not a
    number, 0, or at least the number of leech cards found, [get_leech_cards]
    returns all the identifiers found, in the order the search gave them,
    with [count] and [totalLeechCards] both their number, and makes no
    further call. *)
Theorem handleGetLeechCards_all_ids
    (args : ToolArgs.t) (w w1 : world) (ids : list Z) :
  request "findCards" (Params.ofQuery "tag:leech") w = (inr (RIds ids), w1) ->
  ids <> [] ->
  ToolArgs.detailed args = Some (ABool false) ->
  all_requested args (length ids) ->
  exists message w',
    handleGetLeechCards args w
    = (inr (Envelope (IdsJson message (length ids) (length ids) ids) false), w')
    /\ trace w' = trace w1 /\ posts w' = posts w1 /\ draws w' = draws w1.
Proof.
  intros H Hne Hdetailed Hall. unfold handleGetLeechCards, findLeechCards.
  unfold bind at 1. rewrite H. cbn [as_ids].
  unfold bind at 1. unfold ret at 1. unfold bind at 1. unfold alloc at 1.
  replace (length ids =? 0)%nat with false by (by destruct ids).
  rewrite Hdetailed. cbn [is_false negb].
  set (w0 := set_heap (heap w1 ++ [ids]) w1).
  assert (Ha : heap w0 !! length (heap w1) = Some ids).
  { unfold w0. simpl. by rewrite lookup_app_r, Nat.sub_diag by lia. }
  assert (Hread : read (length (heap w1)) w0 = (inr ids, w0))
    by (unfold read; by rewrite Ha).
  destruct (ToolArgs.count args) as [[| |n| | |]|] eqn:Hcount;
    cbn [fmap option_fmap option_map truthy_arg default from_option id];
    try (unfold bind at 1; unfold ret at 1; unfold bind at 1; rewrite Hread;
         unfold ret; by eexists _, _).
  destruct (Hall n Hcount) as [Hzero | Hge].
  - apply Qeq_bool_iff in Hzero. rewrite Hzero. cbn [negb].
    unfold bind at 1. unfold ret at 1. unfold bind at 1.
    rewrite Hread. unfold ret. by eexists _, _.
  - destruct (Qeq_bool n 0); cbn [negb].
    + unfold bind at 1. unfold ret at 1. unfold bind at 1.
      rewrite Hread. unfold ret. by eexists _, _.
    + unfold bind at 1. rewrite (getRandomCardIds_keep w0 _ ids n Ha Hge).
      unfold bind at 1. rewrite Hread. unfold ret. by eexists _, _.
Qed.

Lemma leech_world_found :
  request "findCards" (Params.ofQuery "tag:leech") leech_world
  = (inr (RIds [10; 20; 30; 40; 50]), leech_world1).
Proof. reflexivity. Qed.

Lemma five_ids : [10; 20; 30; 40; 50] <> @nil Z.
Proof. discriminate. Qed.

Lemma handleGetLeechCards_all_ids_witness :
  exists message w',
    handleGetLeechCards ids_only leech_world
    = (inr (Envelope (IdsJson message (length [10; 20; 30; 40; 50])
                              (length [10; 20; 30; 40; 50]) [10; 20; 30; 40; 50])
                     false), w')
    /\ trace w' = trace leech_world1 /\ posts w' = posts leech_world1
    /\ draws w' = draws leech_world1.
Proof.
  apply (handleGetLeechCards_all_ids ids_only leech_world leech_world1
           [10; 20; 30; 40; 50] leech_world_found five_ids eq_refl).
  intros n Hn. discriminate Hn.
Defined.

(** X22. With [detailed: false] and a [count] above 0 and below the
    number found, whole or not, [get_leech_cards] returns the first
    [count] identifiers, [count] cut down to a whole number, of the
    shuffled search result: [count] of them for a whole [count], two for
    2.5, none for 0.5. It reports that number and the total, returns no
    identifier more often than the search gave it, and makes no further
    call: the sampler is fed the search result and draws from [Math.random]
    only, each index it computes being in range. *)
Theorem handleGetLeechCards_sample_ids
    (args : ToolArgs.t) (w w1 : world) (ids : list Z) (n : Q) :
  request "findCards" (Params.ofQuery "tag:leech") w = (inr (RIds ids), w1) ->
  ToolArgs.detailed args = Some (ABool false) ->
  ToolArgs.count args = Some (ANum n) ->
  (0 < n)%Q -> (n < inject_Z (Z.of_nat (length ids)))%Q ->
  (Z.of_nat (length ids) < 2 ^ 53)%Z ->
  unit_interval (Math_random w) ->
  exists sample w',
    handleGetLeechCards args w
    = (inr (Envelope
              (IdsJson ("Returning " ++ pretty (length sample) ++ " random cards out of "
                          ++ pretty (length ids) ++ " total leech cards.")
                       (length sample) (length ids) sample)
              false), w')
    /\ sample = take (Z.to_nat (truncate n))
                     (shuffled_copy (Math_random w) (draws w) ids)
    /\ (forall i, (i < length ids)%nat ->
                  (choice (Math_random w) (draws w) (length ids) i <= i)%nat)
    /\ length sample = Z.to_nat (truncate n)
    /\ sample ⊆+ ids
    /\ trace w' = trace w1 /\ posts w' = posts w1.
Proof.
  intros H Hdetailed Hcount Hpos Hn Hlen Hrnd. unfold handleGetLeechCards, findLeechCards.
  unfold bind at 1. rewrite H. cbn [as_ids].
  unfold bind at 1. unfold ret at 1. unfold bind at 1. unfold alloc at 1.
  assert (Hne : ids <> []).
  { intros ->. apply (Qlt_irrefl 0). by eapply Qlt_trans. }
  replace (length ids =? 0)%nat with false by (by destruct ids).
  rewrite Hdetailed, Hcount.
  cbn [is_false negb fmap option_fmap option_map truthy_arg default from_option id].
  replace (Qeq_bool n 0) with false.
  2: { symmetry. apply not_true_is_false. intros Hz. apply Qeq_bool_iff in Hz.
       rewrite Hz in Hpos. by apply Qlt_irrefl in Hpos. }
  cbn [negb].
  set (w0 := set_heap (heap w1 ++ [ids]) w1).
  assert (Ha : heap w0 !! length (heap w1) = Some ids).
  { unfold w0. simpl. by rewrite lookup_app_r, Nat.sub_diag by lia. }
  assert (Hsame : Math_random w0 = Math_random w /\ draws w0 = draws w).
  { destruct (request_from_after _ _ _ _ _ _ H) as (k & evs & -> & _). done. }
  destruct Hsame as [Hrandom Hdraws].
  unfold bind at 1.
  rewrite (getRandomCardIds_run w0 (length (heap w1)) ids n Ha Hn), Hrandom, Hdraws.
  pose proof (shuffled_copy_Permutation (Math_random w) (draws w) ids) as Hs.
  set (s := shuffled_copy (Math_random w) (draws w) ids) in *.
  unfold bind at 1. unfold read at 1.
  cbn [heap sampled]. rewrite lookup_app_r by lia.
  replace (S (length (heap w0)) - length (heap w0))%nat with 1%nat by lia.
  cbn [lookup list_lookup default from_option id].
  assert (Hslice : slice_to s n = take (Z.to_nat (truncate n)) s).
  { unfold slice_to. cbv zeta.
    by replace (truncate n <? 0)%Z with false
      by (symmetry; apply Z.ltb_ge, truncate_nonneg; by apply Qlt_le_weak). }
  unfold ret. eexists _, _. split; [reflexivity|].
  rewrite Hslice. split; [reflexivity|]. split.
  { intros i Hi. by apply choice_le. }
  split.
  { rewrite length_take_le; [done|]. rewrite (Permutation_length Hs).
    pose proof (truncate_le n _ (Nat2Z.is_nonneg _) Hn). lia. }
  split; [|done].
  rewrite <- Hs. apply sublist_submseteq, sublist_take.
Qed.

Lemma handleGetLeechCards_sample_ids_witness :
  exists sample w',
    handleGetLeechCards two_and_a_half_ids_only leech_world
    = (inr (Envelope
              (IdsJson ("Returning " ++ pretty (length sample) ++ " random cards out of "
                          ++ pretty (length [10; 20; 30; 40; 50])
                          ++ " total leech cards.")
                       (length sample) (length [10; 20; 30; 40; 50]) sample)
              false), w')
    /\ sample = [50; 10]
    /\ (forall i, (i < 5)%nat -> (choice alternating 0 5 i <= i)%nat)
    /\ length sample = 2%nat
    /\ sample ⊆+ [10; 20; 30; 40; 50]
    /\ trace w' = trace leech_world1 /\ posts w' = posts leech_world1.
Proof.
  apply (handleGetLeechCards_sample_ids two_and_a_half_ids_only leech_world leech_world1
           [10; 20; 30; 40; 50] (5 # 2) leech_world_found eq_refl eq_refl);
    [reflexivity|reflexivity|reflexivity|exact unit_interval_alternating].
Defined.

Example handleGetLeechCards_two_of_five :
  fst (handleGetLeechCards two_ids_only leech_world)
  = inr (Envelope
           (IdsJson "Returning 2 random cards out of 5 total leech cards."
                    2 5 [50; 10])
           false)
  /\ fst (handleGetLeechCards two_and_a_half_ids_only leech_world)
     = inr (Envelope
              (IdsJson "Returning 2 random cards out of 5 total leech cards."
                       2 5 [50; 10])
              false)
  /\ fst (handleGetLeechCards (ToolArgs.mk (Some (ABool false)) (Some (ANum (1 # 2))) None None)
                              leech_world)
     = inr (Envelope
              (IdsJson "Returning 0 random cards out of 5 total leech cards."
                       0 5 [])
              false).
Proof. repeat split; reflexivity. Qed.

(** Asked for all, the selection is the array of all. *)
Lemma selection_all args w0 a ids :
  heap w0 !! a = Some ids -> all_requested args (length ids) ->
  (if truthy_arg (ANum <$> match ToolArgs.count args with
                           | Some (ANum n) => Some n
                           | _ => None
                           end)
   then getRandomCardIds a
          (default 0%Q match ToolArgs.count args with
                       | Some (ANum n) => Some n
                       | _ => None
                       end)
   else ret a) w0
  = (inr a, w0).
Proof.
  intros Ha Hall.
  destruct (ToolArgs.count args) as [[| |n| | |]|] eqn:Hcount;
    cbn [fmap option_fmap option_map truthy_arg default from_option id];
    try reflexivity.
  destruct (Hall n Hcount) as [Hzero | Hge].
  { apply Qeq_bool_iff in Hzero. by rewrite Hzero. }
  destruct (Qeq_bool n 0); cbn [negb]; [reflexivity|].
  by apply (getRandomCardIds_keep w0 a ids n).
Qed.

(** X23. A detailed listing end to end, outside mock mode: when the
    collaborator answers the search with identifiers, the [cardsInfo] call
    for them with card-level records and the [notesInfo] call with notes,
    and all cards are asked for, [get_leech_cards] returns the hydrated
    records in the order of the [cardsInfo] reply, with [count] the number
    of records hydrated and [totalLeechCards] the number of identifiers
    found; it has POSTed these three actions, in this order, and no other. *)
Theorem handleGetLeechCards_detailed
    (args : ToolArgs.t) (w : world) (ids : list Z)
    (cs : list RawCard.t) (ns : list RawNote.t) :
  mockMode w = false ->
  collaborator w (posts w) "findCards" (Params.ofQuery "tag:leech")
  = Response (RIds ids) None ->
  ids <> [] ->
  collaborator w (1 + posts w) "cardsInfo" (Params.ofCards ids)
  = Response (RCards cs) None ->
  collaborator w (2 + posts w) "notesInfo"
               (Params.ofNotes (set_elements (map RawCard.note cs)))
  = Response (RNotes ns) None ->
  is_false (ToolArgs.detailed args) = false ->
  all_requested args (length ids) ->
  exists message w',
    handleGetLeechCards args w
    = (inr (Envelope
              (CardsJson message
                         (length (hydrate (notesInfoMap_of ns) cs)) (length ids)
                         (map CardView.of_card (hydrate (notesInfoMap_of ns) cs)))
              false), w')
    /\ posted (trace w') = posted (trace w) ++ ["findCards"; "cardsInfo"; "notesInfo"].
Proof.
  intros Hreal H0 Hne H1 H2 Hdetailed Hall.
  unfold handleGetLeechCards, findLeechCards. unfold bind at 1. unfold request.
  rewrite (request_from_success w _ _ Hreal 3 _ None H0 eq_refl).
  cbn [as_ids]. unfold bind at 1. unfold ret at 1. unfold bind at 1. unfold alloc at 1.
  replace (length ids =? 0)%nat with false by (by destruct ids).
  rewrite Hdetailed. cbn [negb].
  set (w1 := after w 1 _). set (w0 := set_heap (heap w1 ++ [ids]) w1).
  assert (Ha : heap w0 !! length (heap w1) = Some ids).
  { unfold w0. simpl. by rewrite lookup_app_r, Nat.sub_diag by lia. }
  unfold bind at 1. rewrite (selection_all args w0 _ ids Ha Hall).
  unfold bind at 1. unfold read at 1. rewrite Ha. cbn [default from_option id].
  unfold bind at 1.
  erewrite (getCardsInfo_run w0 ids cs ns); [|exact Hne| |].
  2: { apply (request_from_success w0 "cardsInfo" (Params.ofCards ids) Hreal 3
                (RCards cs) None H1 eq_refl). }
  2: { apply (request_from_success
                (after w0 1 [EPost "cardsInfo" (Params.ofCards ids); EDelay 50])
                "notesInfo" (Params.ofNotes (set_elements (map RawCard.note cs)))
                Hreal 3 (RNotes ns) None H2 eq_refl). }
  unfold ret. eexists _, _. split; [reflexivity|].
  cbn [trace after set_heap w0 w1].
  rewrite !posted_app, posted_loop_events, app_nil_r, <- !app_assoc. reflexivity.
Qed.

Lemma handleGetLeechCards_detailed_witness :
  exists message w',
    handleGetLeechCards (ToolArgs.mk None None None None) listing_world
    = (inr (Envelope
              (CardsJson message
                         (length (hydrate (notesInfoMap_of gap_notes) gap_cards))
                         (length [11; 12; 13])
                         (map CardView.of_card
                              (hydrate (notesInfoMap_of gap_notes) gap_cards)))
              false), w')
    /\ posted (trace w')
       = posted (trace listing_world) ++ ["findCards"; "cardsInfo"; "notesInfo"].
Proof.
  apply (handleGetLeechCards_detailed (ToolArgs.mk None None None None) listing_world
           [11; 12; 13] gap_cards gap_notes
           eq_refl eq_refl three_cards eq_refl eq_refl eq_refl).
  intros n Hn. discriminate Hn.
Defined.

(** Three leech cards found, one note lost: two records of three. *)
Example handleGetLeechCards_listing_world :
  match fst (handleGetLeechCards (ToolArgs.mk None None None None) listing_world) with
  | inr (Envelope (CardsJson message count total cards) flagged) =>
      Some (message, count, total, map CardView.id cards, flagged)
  | _ => None
  end
  = Some ("Returning all 3 leech cards.", 2%nat, 3%nat, [11; 13], false).
Proof. vm_compute. reflexivity. Qed.

(** X24. The single-tool dispatcher treats an unknown tool differently
    from the two-tool one: it throws the method-not-found error, whose
    message the SDK words [MCP error -32601: Unknown tool: <name>], before
    probing the collaborator, leaving the world untouched; for
    [get_leech_cards] it never throws. *)
Theorem callTool_leech_only_names (name : string) (args : ToolArgs.t) (w : world) :
  mockMode w = false ->
  (name <> "get_leech_cards" ->
   exists e,
     callTool_leech_only name args w = (inl e, w)
     /\ e = McpError (-32601) ("Unknown tool: " ++ name)
     /\ message_of e = Some ("MCP error -32601: Unknown tool: " ++ name)%string)
  /\ exists env w', callTool_leech_only "get_leech_cards" args w = (inr env, w').
Proof.
  intros _. split.
  - intros Hname. apply String.eqb_neq in Hname.
    unfold callTool_leech_only. rewrite Hname. by eexists.
  - unfold callTool_leech_only. cbn [String.eqb Ascii.eqb Bool.eqb negb].
    destruct (isAvailable_posts w) as (available & n & evs & Hav & _).
    unfold bind at 1. rewrite Hav.
    destruct available; cbn [negb]; [|by eexists _, _].
    unfold try_catch.
    destruct (handleGetLeechCards args (after w n evs)) as [[e|env] w'];
      unfold ret; by eexists _, _.
Qed.

Lemma callTool_leech_only_names_witness :
  (exists e,
     callTool_leech_only "tag_reviewed_cards" empty_card_ids probe_world
     = (inl e, probe_world)
     /\ e = McpError (-32601) "Unknown tool: tag_reviewed_cards"
     /\ message_of e = Some "MCP error -32601: Unknown tool: tag_reviewed_cards")
  /\ exists env w',
       callTool_leech_only "get_leech_cards" empty_card_ids probe_world = (inr env, w').
Proof.
  destruct (callTool_leech_only_names "tag_reviewed_cards" empty_card_ids probe_world
              eq_refl) as [Hunknown Hknown].
  split; [apply Hunknown; discriminate|exact Hknown].
Defined.

(** ** Sampler, any count below the length *)

(** X25. For every [count] below the number of identifiers, whole or not,
    zero and negative ones included, and whatever duplicates the input
    holds, [getRandomCardIds] returns a new array: what [slice(0, count)]
    keeps of the shuffled copy. With [k] the whole number [count] is cut
    down to (2 for 2.5, 0 for 0.5 and for -0.5), it has [k] elements when
    [k >= 0] and all but [-k] of them (none when that is negative) when
    [k < 0]; it holds no identifier more often than the input does. The
    input array is unchanged, and each index the shuffle computes is in
    range. *)
Theorem getRandomCardIds_any_count
    (w : world) (cardIds : nat) (ids : list Z) (count : Q) :
  heap w !! cardIds = Some ids ->
  (count < inject_Z (Z.of_nat (length ids)))%Q ->
  (Z.of_nat (length ids) < 2 ^ 53)%Z ->
  unit_interval (Math_random w) ->
  exists out sample w',
    getRandomCardIds cardIds count w = (inr out, w')
    /\ heap w' !! out = Some sample
    /\ sample = slice_to (shuffled_copy (Math_random w) (draws w) ids) count
    /\ (forall i, (i < length ids)%nat ->
                  (choice (Math_random w) (draws w) (length ids) i <= i)%nat)
    /\ sample ⊆+ ids
    /\ length sample
       = (if (truncate count <? 0)%Z
          then Z.to_nat (Z.of_nat (length ids) + truncate count)
          else Z.to_nat (truncate count))
    /\ heap w' !! cardIds = Some ids
    /\ out <> cardIds.
Proof.
  intros Ha Hcount Hlen Hrnd.
  pose proof (getRandomCardIds_run w cardIds ids count Ha Hcount) as Hrun.
  pose proof (shuffled_copy_Permutation (Math_random w) (draws w) ids) as Hs.
  set (s := shuffled_copy (Math_random w) (draws w) ids) in *.
  eexists _, (slice_to s count), _. split; [exact Hrun|].
  pose proof (Permutation_length Hs) as Hlens.
  split.
  { cbn [heap sampled]. rewrite lookup_app_r by lia.
    by replace (S (length (heap w)) - length (heap w))%nat with 1%nat by lia. }
  split; [reflexivity|]. split.
  { intros i Hi. by apply choice_le. }
  split.
  { rewrite <- Hs. unfold slice_to. cbv zeta.
    destruct (truncate count <? 0)%Z; apply sublist_submseteq, sublist_take. }
  split.
  { pose proof (truncate_le count _ (Nat2Z.is_nonneg _) Hcount).
    unfold slice_to. cbv zeta.
    destruct (Z.ltb_spec (truncate count) 0); rewrite length_take; lia. }
  split.
  { cbn [heap sampled]. by apply lookup_app_l_Some. }
  apply lookup_lt_Some in Ha. lia.
Qed.

Lemma getRandomCardIds_any_count_witness :
  exists out sample w',
    getRandomCardIds 0 (5 # 2) deck_world = (inr out, w')
    /\ heap w' !! out = Some sample
    /\ sample = [50; 10]
    /\ (forall i, (i < 5)%nat -> (choice alternating 0 5 i <= i)%nat)
    /\ sample ⊆+ [10; 20; 30; 40; 50]
    /\ length sample = 2%nat
    /\ heap w' !! 0%nat = Some [10; 20; 30; 40; 50]
    /\ out <> 0%nat.
Proof.
  apply (getRandomCardIds_any_count deck_world 0 [10; 20; 30; 40; 50] (5 # 2) eq_refl);
    [reflexivity|reflexivity|exact unit_interval_alternating].
Defined.

(** On five cards: [count: -2] gives three of them, [count: 0.5] and
    [count: -0.5] none, [count: -7] none. *)
Example getRandomCardIds_other_counts :
  heap (snd (getRandomCardIds 0 (-2) deck_world)) !! 2%nat = Some [50; 10; 30]
  /\ heap (snd (getRandomCardIds 0 (1 # 2) deck_world)) !! 2%nat = Some []
  /\ heap (snd (getRandomCardIds 0 (-1 # 2) deck_world)) !! 2%nat = Some []
  /\ heap (snd (getRandomCardIds 0 (-7) deck_world)) !! 2%nat = Some [].
Proof. repeat split; reflexivity. Qed.

(** ** [arraysEqual] *)

Lemma arraysEqual_from_spec (a b : list Z) : forall remaining i,
  arraysEqual_from a b i remaining = true
  <-> forall j, (i <= j < i + remaining)%nat -> a !! j = b !! j.
Proof.
  induction remaining as [|remaining IH]; intros i; cbn [arraysEqual_from].
  - split; [intros _ j Hj; lia|done].
  - case_bool_decide as Hi; cbn [negb].
    + rewrite IH. split.
      * intros H j Hj. destruct (decide (j = i)) as [->|]; [done|]. apply H. lia.
      * intros H j Hj. apply H. lia.
    + split; [done|]. intros H. exfalso. apply Hi, H. lia.
Qed.

(** X26. [arraysEqual] of the selection test decides equality of two
    arrays of identifiers: it answers [true] exactly when they have the
    same length and the same element at every index. *)
Theorem arraysEqual_spec (a b : list Z) : arraysEqual a b = true <-> a = b.
Proof.
  unfold arraysEqual.
  destruct (Nat.eqb_spec (length a) (length b)) as [Hlen|Hlen]; cbn [negb].
  - rewrite arraysEqual_from_spec. split.
    + intros H. apply list_eq. intros j.
      destruct (decide (j < length a)%nat) as [Hj|Hj]; [apply H; lia|].
      by rewrite !lookup_ge_None_2 by lia.
    + by intros ->.
  - split; [done|]. intros ->. done.
Qed.

(** ** Errors on their way to the envelope *)

(** X27. An error of the collaborator reaches the user as text: outside
    mock mode, when the probe is answered and the search is then rejected
    with a non-empty error message, [get_leech_cards] returns the
    error-flagged envelope quoting that message, after these two POSTs and
    no retry. *)
Theorem callTool_reports_remote_error
    (args : ToolArgs.t) (w : world) (r r' : jsresult) (e : string) :
  mockMode w = false ->
  collaborator w (posts w) "version" Params.empty = Response r None ->
  collaborator w (1 + posts w) "findCards" (Params.ofQuery "tag:leech")
  = Response r' (Some e) ->
  e <> "" ->
  callTool "get_leech_cards" args w
  = (inr (Envelope (Text ("Error: AnkiConnect error: " ++ e)) true),
     after w 2 [EPost "version" Params.empty; EDelay 50;
                EPost "findCards" (Params.ofQuery "tag:leech")]).
Proof.
  intros Hreal Hprobe Hfind He.
  assert (Ht : truthy (Some e) = true).
  { simpl. destruct (String.eqb_spec e ""); [contradiction|reflexivity]. }
  unfold callTool. unfold bind at 1. unfold isAvailable, try_catch, bind at 1.
  unfold request. rewrite (request_from_success w _ _ Hreal 3 r None Hprobe eq_refl).
  unfold ret at 1. cbn [negb andb]. cbn [String.eqb Ascii.eqb Bool.eqb].
  unfold handleGetLeechCards, findLeechCards, request. unfold bind at 1.
  set (w1 := after w 1 _).
  assert (Hfail : request_from 3 "findCards" (Params.ofQuery "tag:leech") w1
                  = (inl (Error ("AnkiConnect error: " ++ e)),
                     after w1 1 [EPost "findCards" (Params.ofQuery "tag:leech")])).
  { cbn [request_from]. unfold w1 at 1. cbn [mockMode after]. rewrite Hreal.
    unfold try_catch, bind.
    rewrite (post_response w1 "findCards" _ r' (Some e) Hfind).
    cbn [snd fst]. by rewrite Ht. }
  rewrite Hfail. unfold ret. unfold w1. by rewrite after_after.
Qed.

Lemma callTool_reports_remote_error_witness :
  let w := fresh_world false
             [Response (RStr "6") None;
              Response RNull (Some "collection is not available")]
             (fun _ => 0%float) in
  callTool "get_leech_cards" ids_only w
  = (inr (Envelope (Text ("Error: AnkiConnect error: " ++ "collection is not available"))
                   true),
     after w 2 [EPost "version" Params.empty; EDelay 50;
                EPost "findCards" (Params.ofQuery "tag:leech")]).
Proof.
  intros w.
  apply (callTool_reports_remote_error ids_only w (RStr "6") RNull
           "collection is not available" eq_refl eq_refl eq_refl).
  discriminate.
Defined.
